(** * openai-api: the request-shaping layer of the client

    A shallow embedding of [config.js] (the URL builders) and [index.js]
    (the [OpenAI] class) and the properties of the specification that
    concern them.

    Conventions of the embedding.
    - A JavaScript string is a [string]: a sequence of code units, each in
      the range U+0000..U+00FF.  On that range [String.prototype.toLowerCase]
      is total and length preserving, and it is written out in [lower].
    - An object is the list of its own enumerable properties in the order
      in which [for ... in] and [Object.keys] enumerate them.  It is a plain
      object or an instance of the class, which inherits the methods of the
      class; nothing enumerable is inherited.  The properties of a bag are
      data properties, and an object held in a bag has writable data
      properties only.
    - Objects that the caller can see (the options bags, the clients) live
      in a heap and are passed by address, each with its shape: whether it
      is an instance, and which of its properties are not configurable (all
      of them when the object is sealed or frozen).  The methods run in a
      state and exception monad over that heap and over the log of the calls
      made to [axios]. *)

From Stdlib Require Import Ascii String.
From stdpp Require Import base list strings.

(** ** Strings *)

Module JsString.

Definition code (c : ascii) : nat := nat_of_ascii c.

(** The character class [[A-Z]] of the regular expression. *)
Definition is_AZ (c : ascii) : bool :=
  (65 <=? code c) && (code c <=? 90).

(** The upper-case letters of the range: A-Z and U+00C0..U+00DE without
    the multiplication sign U+00D7. *)
Definition is_upper (c : ascii) : bool :=
  is_AZ c
  || ((192 <=? code c) && (code c <=? 222) && negb (code c =? 215)).

Definition lower (c : ascii) : ascii :=
  if is_upper c then ascii_of_nat (code c + 32) else c.

(** [s.toLowerCase()] *)
Fixpoint toLowerCase (s : string) : string :=
  match s with
  | EmptyString => EmptyString
  | String c r => String (lower c) (toLowerCase r)
  end.

(** [s.replace(/([A-Z])/g, " $1")]: every match of the class is replaced
    by a space followed by the matched letter. *)
Fixpoint replace_AZ (s : string) : string :=
  match s with
  | EmptyString => EmptyString
  | String c r =>
      if is_AZ c then String " " (String c (replace_AZ r))
      else String c (replace_AZ r)
  end.

(** [s.split(sep)] for a separator of one character.  The result is never
    empty: [''.split(' ')] is [['']]. *)
Fixpoint split (sep : ascii) (s : string) : list string :=
  match s with
  | EmptyString => [EmptyString]
  | String c r =>
      if Ascii.eqb c sep then EmptyString :: split sep r
      else match split sep r with
           | [] => [String c EmptyString]
           | h :: t => String c h :: t
           end
  end.

(** [l.join(sep)] *)
Fixpoint join (sep : string) (l : list string) : string :=
  match l with
  | [] => EmptyString
  | [h] => h
  | h :: t => h +:+ sep +:+ join sep t
  end.

(** [hay.includes(needle)] on strings. *)
Fixpoint starts_with (p s : string) : bool :=
  match p, s with
  | EmptyString, _ => true
  | String a p', String b s' => Ascii.eqb a b && starts_with p' s'
  | String _ _, EmptyString => false
  end.

Fixpoint includes (hay needle : string) : bool :=
  starts_with needle hay
  || match hay with
     | EmptyString => false
     | String _ r => includes r needle
     end.

End JsString.
Import JsString.

(** ** Values and plain objects *)

(** The values of the language other than [undefined] and the strings (null,
    booleans, numbers, arrays, nested objects) enter the client only through
    their truthiness and their conversion to a string, so they are kept
    abstract behind this interface. *)
Class JsOther (other : Type) := {
  truthy_other : other -> bool;
  toString_other : other -> string;
  (** The value, installed as a prototype by the setter of [__proto__],
      leaves no such setter to inherit: [null], or an object that has a
      property [__proto__] of its own or no [Object.prototype] behind it.
      (The setter installs nothing for a value that is not an object.) *)
  hides_setter_other : other -> bool
}.

(** A function is met as the method that an instance inherits; it is
    truthy and converts to its source text. *)
Inductive value (other : Type) : Type :=
| VUndefined
| VString (s : string)
| VFunction (source : string)
| VOther (o : other).
Arguments VUndefined {other}.
Arguments VString {other} s.
Arguments VFunction {other} source.
Arguments VOther {other} o.

(** A small instance: [null] and the booleans. *)
Inductive prim : Type := PNull | PBool (b : bool).

#[export] Instance prim_JsOther : JsOther prim := {
  truthy_other p := match p with PNull => false | PBool b => b end;
  toString_other p :=
    match p with
    | PNull => "null"
    | PBool true => "true"
    | PBool false => "false"
    end;
  hides_setter_other p := match p with PNull => true | PBool _ => false end
}.

(** A plain object: its own enumerable properties, in enumeration order. *)
Definition obj (other : Type) : Type := list (string * value other).

Module Obj.
Section Obj.
Context {other : Type} `{JsOther other}.
Implicit Types (o : obj other) (v : value other) (k : string).

Definition keys o : list string := map fst o.

Fixpoint lookup k o : option (value other) :=
  match o with
  | [] => None
  | (k', v) :: r => if String.eqb k' k then Some v else lookup k r
  end.

(** [o[k]]: [undefined] for a property that is absent. *)
Definition get k o : value other :=
  match lookup k o with Some v => v | None => VUndefined end.

(** [delete o[k]] *)
Fixpoint delete k o : obj other :=
  match o with
  | [] => []
  | (k', v) :: r =>
      if String.eqb k' k then delete k r else (k', v) :: delete k r
  end.

(** Array indices: the canonical numeric strings below 2^32 - 1.  An
    object enumerates them first, in ascending order, and its other keys
    after them in the order of their creation. *)
Definition digit (c : ascii) : option N :=
  if (48 <=? code c) && (code c <=? 57)
  then Some (N.of_nat (code c - 48)) else None.

Fixpoint digits (acc : N) (s : string) : option N :=
  match s with
  | EmptyString => Some acc
  | String c r =>
      match digit c with
      | Some d => digits (10 * acc + d)%N r
      | None => None
      end
  end.

Definition array_index (k : string) : option N :=
  match k with
  | EmptyString => None
  | String "0" EmptyString => Some 0%N
  | String "0" _ => None
  | _ => match digits 0 k with
         | Some n => if (n <? 4294967295)%N then Some n else None
         | None => None
         end
  end.

Definition index_below (n : N) k : bool :=
  match array_index k with Some m => (m <? n)%N | None => false end.

Fixpoint place_index (n : N) k v o : obj other :=
  match o with
  | [] => [(k, v)]
  | (k', v') :: r =>
      if index_below n k' then (k', v') :: place_index n k v r
      else (k, v) :: o
  end.

Definition create k v o : obj other :=
  match array_index k with
  | Some n => place_index n k v o
  | None => o ++ [(k, v)]
  end.

Fixpoint overwrite k v o : obj other :=
  match o with
  | [] => []
  | (k', v') :: r =>
      if String.eqb k' k then (k', v) :: r else (k', v') :: overwrite k v r
  end.

(** Writing an own data property: an existing one keeps its place. *)
Definition set k v o : obj other :=
  match lookup k o with
  | Some _ => overwrite k v o
  | None => create k v o
  end.

(** What the setter of [__proto__] does with a value: it is ignored unless
    it is [null] or an object, and then installed as the prototype. *)
Definition hides_setter v : bool :=
  match v with
  | VOther x => hides_setter_other x
  | _ => false
  end.

(** [o[k] = v] for an object made by the literal [{}]; [setter] tells
    whether the object still inherits the accessor [__proto__] of
    [Object.prototype].  While it does, a write to [__proto__] runs the
    setter: no own property is made, and the prototype installed may hide
    the setter.  Once the setter is out of reach, [__proto__] is a key like
    the others. *)
Definition assign (setter : bool) k v o : bool * obj other :=
  if String.eqb k "__proto__" && setter then (negb (hides_setter v), o)
  else (setter, set k v o).

End Obj.
End Obj.

(** ** Conversions *)

Section Conversions.
Context {other : Type} `{JsOther other}.

(** The conversion made by a template literal [`${v}`]. *)
Definition toString (v : value other) : string :=
  match v with
  | VUndefined => "undefined"
  | VString s => s
  | VFunction source => source
  | VOther o => toString_other o
  end.

(** The truthiness tested by [||]. *)
Definition truthy (v : value other) : bool :=
  match v with
  | VUndefined => false
  | VString EmptyString => false
  | VString (String _ _) => true
  | VFunction _ => true
  | VOther o => truthy_other o
  end.

(** [a || b] *)
Definition or_else (a b : value other) : value other :=
  if truthy a then a else b.

(** [names.includes(v)] on an array of strings: a value that is not a
    string equals none of them. *)
Definition array_includes (names : list string) (v : value other) : bool :=
  match v with
  | VString s => existsb (String.eqb s) names
  | _ => false
  end.
End Conversions.

(** ** config.js: the URL builders *)

Module config.
Section config.
Context {other : Type} `{JsOther other}.

Definition DEFAULT_ENGINE : string := "davinci".
Definition ORIGIN : string := "https://api.openai.com".
Definition API_VERSION : string := "v1".
Definition OPEN_AI_URL : string := ORIGIN +:+ "/" +:+ API_VERSION.

Definition completionURL (engine : value other) : string :=
  OPEN_AI_URL +:+ "/engines/" +:+ toString engine +:+ "/completions".

Definition searchURL (engine : value other) : string :=
  OPEN_AI_URL +:+ "/engines/" +:+ toString engine +:+ "/search".

Definition enginesUrl : string := OPEN_AI_URL +:+ "/engines".

Definition engineUrl (engine : value other) : string :=
  OPEN_AI_URL +:+ "/engines/" +:+ toString engine.

Definition classificationsUrl : string := OPEN_AI_URL +:+ "/classifications".

Definition filesUrl : string := OPEN_AI_URL +:+ "/files".

Definition answersUrl : string := OPEN_AI_URL +:+ "/answers".

Definition embeddingsUrl (engine : value other) : string :=
  OPEN_AI_URL +:+ "/engines/" +:+ toString engine +:+ "/embeddings".
End config.
End config.

(** ** The state the methods run in *)

(** The [data] field handed to [axios]: the empty string or the object
    built by the dispatcher ([axios] serializes an object as JSON). *)
Inductive body (other : Type) : Type :=
| BodyEmptyString
| BodyObject (o : obj other).
Arguments BodyEmptyString {other}.
Arguments BodyObject {other} o.

(** The configuration object of one call to [axios]. *)
Record request (other : Type) : Type := Request {
  url : string;
  headers : list (string * string);
  data : body other;
  method : string
}.
Arguments Request {other}.
Arguments url {other}.
Arguments headers {other}.
Arguments data {other}.
Arguments method {other}.

Definition loc : Type := nat.

(** What the heap knows of an object besides its properties: whether it
    was made by [new OpenAI], and so inherits the methods of the class, and
    which keys name a property of it that is not configurable. *)
Record shape : Type := Shape {
  is_instance : bool;
  fixed : string -> bool
}.

Definition plain_shape : shape := Shape false (fun _ => false).
Definition client_shape : shape := Shape true (fun _ => false).
(** [Object.freeze(o)] and [Object.seal(o)] leave no property of [o]
    configurable. *)
Definition frozen_shape : shape := Shape false (fun _ => true).

(** [heap]: the objects the caller can reach, by address.  [net]: the calls
    made to [axios] so far, oldest first.  [shapes]: the shape of the object
    at each address. *)
Record state (other : Type) : Type := State {
  heap : list (obj other);
  net : list (request other);
  shapes : loc -> shape
}.
Arguments State {other}.
Arguments heap {other}.
Arguments net {other}.
Arguments shapes {other}.

Inductive exn : Type :=
| TypeError
| Error (message : string).

Inductive outcome (A : Type) : Type :=
| Ret (a : A)
| Throw (e : exn).
Arguments Ret {A} a.
Arguments Throw {A} e.

(** A promise is the one returned by the [n]-th call to [axios], settled by
    the transport, or one already resolved with an array of strings. *)
Inductive promise : Type :=
| PAxios (n : nat)
| PResolved (a : list string).

Definition M (other : Type) (A : Type) : Type :=
  state other -> outcome A * state other.

Module Run.
Section Run.
Context {other : Type}.

Definition ret {A} (a : A) : M other A := fun s => (Ret a, s).

Definition bind {A B} (m : M other A) (k : A -> M other B) : M other B :=
  fun s =>
    match m s with
    | (Ret a, s') => k a s'
    | (Throw e, s') => (Throw e, s')
    end.

Definition throw {A} (e : exn) : M other A := fun s => (Throw e, s).

(** Reading the object behind an address.  An address outside the heap
    stands for [undefined]: reading a property of it is a [TypeError]. *)
Definition deref (l : loc) : M other (obj other) :=
  fun s =>
    match heap s !! l with
    | Some o => (Ret o, s)
    | None => (Throw TypeError, s)
    end.

(** The bag behind an argument that has the default [{}]: the default is
    taken when the argument is left out or [undefined]. *)
Definition bag_or_default (arg : option loc) : M other (obj other) :=
  fun s =>
    match arg with
    | Some l =>
        match heap s !! l with
        | Some o => (Ret o, s)
        | None => (Ret [], s)
        end
    | None => (Ret [], s)
    end.

Definition store (l : loc) (o : obj other) : M other unit :=
  fun s => (Ret tt, State (<[l := o]> (heap s)) (net s) (shapes s)).

(** Whether the property [k] of the object [o] at [l] can be deleted: it
    is not there, or it is configurable. *)
Definition can_delete (s : state other) (l : loc) (k : string)
    (o : obj other) : bool :=
  match Obj.lookup k o with
  | Some _ => negb (fixed (shapes s l) k)
  | None => true
  end.

(** [delete o[k]] in strict code, on the object at [l]: a property that is
    there and is not configurable makes it a [TypeError]; otherwise the
    property, if any, is removed. *)
Definition delete_property (l : loc) (k : string) : M other unit :=
  fun s =>
    match heap s !! l with
    | Some o =>
        if can_delete s l k o then store l (Obj.delete k o) s
        else (Throw TypeError, s)
    | None => (Throw TypeError, s)
    end.

(** [new]: a fresh address for a new object of the shape given. *)
Definition alloc (sh : shape) (o : obj other) : M other loc :=
  fun s =>
    (Ret (length (heap s)),
     State (heap s ++ [o]) (net s)
       (fun l => if Nat.eqb l (length (heap s)) then sh else shapes s l)).

(** [axios(config)]: the request is issued and its promise returned. *)
Definition axios (config : request other) : M other promise :=
  fun s =>
    (Ret (PAxios (length (net s))),
     State (heap s) (net s ++ [config]) (shapes s)).

End Run.
End Run.
Import Run.

Notation "'let*' x ':=' m 'in' k" := (bind m (fun x => k))
  (at level 10, x name, m at level 100, k at level 200).

(** ** index.js: the class [OpenAI] *)

Module OpenAI.
Section OpenAI.
Context {other : Type} `{JsOther other}.

Definition DEFAULT_ENGINE : string := "davinci".

(** [new OpenAI(api_key)] *)
Definition constructor (api_key : value other) : M other loc :=
  alloc client_shape [("_api_key", api_key)].

(** The source text of the method [engine], which is what the function
    converts to in a template literal. *)
Definition engine_source : string :=
  "engine(engine) {" +:+ String "010" EmptyString
  +:+ "    const url = config.engineUrl(engine);" +:+ String "010" EmptyString
  +:+ "    return this._send_request(url, 'get');" +:+ String "010" EmptyString
  +:+ "  }".

(** Whether the object at [l] inherits the methods of the class: the
    client that the running method was called on does, and so does every
    instance. *)
Definition inherits_methods (this l : loc) (s : state other) : bool :=
  Nat.eqb l this || is_instance (shapes s l).

(** [opts.engine] for the object [o] at [l]: the property of the object
    itself, or else the method [engine] where the object inherits it, or
    else [undefined]. *)
Definition engine_of (this l : loc) (s : state other) (o : obj other)
  : value other :=
  match Obj.lookup "engine" o with
  | Some v => v
  | None =>
      if inherits_methods this l s then VFunction engine_source
      else VUndefined
  end.

(** Reading a property of [undefined] is a [TypeError]. *)
Definition read_engine (this l : loc) : M other (value other) :=
  fun s =>
    match heap s !! l with
    | Some o => (Ret (engine_of this l s o), s)
    | None => (Throw TypeError, s)
    end.

(** The arrow function local to [_send_request]. *)
Definition camelToUnderscore (key : string) : string :=
  let result := replace_AZ key in
  toLowerCase (join "_" (split " " result)).

(** The loop [for (const key in opts) data[camelToUnderscore(key)] =
    opts[key]], from the [data] built so far and from what is known of its
    prototype. *)
Fixpoint copy_keys (ks : list string) (opts : obj other)
    (data : bool * obj other) : bool * obj other :=
  match ks with
  | [] => data
  | key :: r =>
      copy_keys r opts
        (Obj.assign (fst data) (camelToUnderscore key) (Obj.get key opts)
           (snd data))
  end.

(** [data] starts as [{}], with [Object.prototype] behind it. *)
Definition transform (opts : obj other) : obj other :=
  snd (copy_keys (Obj.keys opts) opts (true, [])).

(** [_send_request(url, method, opts = {})]; [opts] is [None] when the
    argument is left out.  The [data] field is
    [Object.keys(data).length ? data : '']. *)
Definition _send_request (this : loc) (url : string) (method : string)
    (opts : option loc) : M other promise :=
  let* o := bag_or_default opts in
  let data := transform o in
  let* self := deref this in
  axios (Request url
           [("Authorization", "Bearer " +:+ toString (Obj.get "_api_key" self));
            ("Content-Type", "application/json")]
           (match length (Obj.keys data) with
            | 0 => BodyEmptyString
            | S _ => BodyObject data
            end)
           method).

Definition availableEngineNames : list string :=
  [ "text-similarity-ada-001";
    "text-similarity-babbage-001";
    "text-similarity-curie-001";
    "text-similarity-davinci-001";
    "text-search-ada-doc-001";
    "text-search-ada-query-001";
    "text-search-babbage-doc-001";
    "text-search-babbage-query-001";
    "text-search-curie-doc-001";
    "text-search-curie-query-001";
    "text-search-davinci-doc-001";
    "text-search-davinci-query-001";
    "code-search-ada-code-001";
    "code-search-ada-text-001";
    "code-search-babbage-code-001";
    "code-search-babbage-text-001" ].

(** The message of the error; an array in a template literal is joined
    with commas. *)
Definition unknown_engine_message : string :=
  "Unknown engine name for embeddings. Available engine names are "
  +:+ join "," availableEngineNames.

Definition _check_embeddings_engine_name (engine : value other) : M other unit :=
  if array_includes availableEngineNames engine then ret tt
  else throw (Error unknown_engine_message).

Definition complete (this : loc) (opts : loc) : M other promise :=
  let* engine := read_engine this opts in
  let url := config.completionURL (or_else engine (VString DEFAULT_ENGINE)) in
  let* _ := delete_property opts "engine" in
  _send_request this url "post" (Some opts).

(** The arguments, if any, are ignored. *)
Definition encode (this : loc) (args : list (value other)) : M other promise :=
  ret (PResolved (repeat EmptyString 2047)).

Definition search (this : loc) (opts : loc) : M other promise :=
  let* engine := read_engine this opts in
  let url := config.searchURL (or_else engine (VString DEFAULT_ENGINE)) in
  let* _ := delete_property opts "engine" in
  _send_request this url "post" (Some opts).

Definition answers (this : loc) (opts : option loc) : M other promise :=
  let url := config.answersUrl in
  _send_request this url "post" opts.

Definition classification (this : loc) (opts : option loc) : M other promise :=
  let url := config.classificationsUrl in
  _send_request this url "post" opts.

Definition engines (this : loc) : M other promise :=
  let url := config.enginesUrl in
  _send_request this url "get" None.

Definition engine (this : loc) (engine : value other) : M other promise :=
  let url := config.engineUrl engine in
  _send_request this url "get" None.

Definition embeddings (this : loc) (opts : loc) : M other promise :=
  let* engine := read_engine this opts in
  let* _ := _check_embeddings_engine_name engine in
  let* engine' := read_engine this opts in
  let url := config.embeddingsUrl engine' in
  _send_request this url "post" (Some opts).

End OpenAI.
End OpenAI.
Import OpenAI.

(** ** A caller *)

(** One call of a method of the client. *)
Inductive call (other : Type) : Type :=
| CallComplete (opts : loc)
| CallEncode (args : list (value other))
| CallSearch (opts : loc)
| CallAnswers (opts : option loc)
| CallClassification (opts : option loc)
| CallEngines
| CallEngine (name : value other)
| CallEmbeddings (opts : loc).
Arguments CallComplete {other} opts.
Arguments CallEncode {other} args.
Arguments CallSearch {other} opts.
Arguments CallAnswers {other} opts.
Arguments CallClassification {other} opts.
Arguments CallEngines {other}.
Arguments CallEngine {other} name.
Arguments CallEmbeddings {other} opts.

Section Caller.
Context {other : Type} `{JsOther other}.

Definition invoke (this : loc) (c : call other) : M other promise :=
  match c with
  | CallComplete opts => complete this opts
  | CallEncode args => encode this args
  | CallSearch opts => search this opts
  | CallAnswers opts => answers this opts
  | CallClassification opts => classification this opts
  | CallEngines => engines this
  | CallEngine name => engine this name
  | CallEmbeddings opts => embeddings this opts
  end.

(** A caller that makes the calls one after the other and goes on after
    an exception. *)
Fixpoint run (this : loc) (cs : list (call other)) (s : state other)
  : state other :=
  match cs with
  | [] => s
  | c :: r => run this r (snd (invoke this c s))
  end.

(** The headers every request is expected to carry. *)
Definition bearer_headers (key : value other) : list (string * string) :=
  [("Authorization", "Bearer " +:+ toString key);
   ("Content-Type", "application/json")].

(** [this._api_key], as a caller holding the client reads it. *)
Definition client_key (this : loc) (s : state other) : option (value other) :=
  Obj.get "_api_key" <$> heap s !! this.

(** Requests that carry the headers made from [key]. *)
Definition stamped (key : value other) (new : list (request other)) : Prop :=
  Forall (fun r => headers r = bearer_headers key) new.

(** The URL of the last request issued in a run. *)
Definition last_url (r : outcome promise * state other) : option string :=
  url <$> last (net (snd r)).

(** The [data] field for a transformed mapping. *)
Definition body_of (data : obj other) : body other :=
  match data with
  | [] => BodyEmptyString
  | _ :: _ => BodyObject data
  end.
End Caller.

(** ** A sample heap *)

Definition sample_client : obj prim := [("_api_key", VString "sk-test")].

(** The client is at address 0; the other objects are plain. *)
Definition sample_shapes (l : loc) : shape :=
  match l with
  | 0 => client_shape
  | _ => plain_shape
  end.

(** The client at address 0 and one bag at address 1; no request yet. *)
Definition sample_state (bag : obj prim) : state prim :=
  State [sample_client; bag] [] sample_shapes.

(** The same with the bag frozen. *)
Definition frozen_state (bag : obj prim) : state prim :=
  State [sample_client; bag] []
    (fun l => match l with 1 => frozen_shape | _ => sample_shapes l end).

(** ** The rewriting of a key in the words of the specification *)

Module Spec.

(** An underscore goes before each letter A-Z, a space becomes an
    underscore, and every character is lower-cased. *)
Definition rewrite_char (c : ascii) : string :=
  if is_AZ c then String "_" (String (lower c) EmptyString)
  else if Ascii.eqb c " " then String "_" EmptyString
  else String (lower c) EmptyString.

Fixpoint rewrite_key (s : string) : string :=
  match s with
  | EmptyString => EmptyString
  | String c r => rewrite_char c +:+ rewrite_key r
  end.

(** The rewriting as the specification words it: an underscore goes before
    each upper-case letter and the key is lower-cased. *)
Definition stated_char (c : ascii) : string :=
  if is_upper c then String "_" (String (lower c) EmptyString)
  else String (lower c) EmptyString.

Fixpoint stated_key (s : string) : string :=
  match s with
  | EmptyString => EmptyString
  | String c r => stated_char c +:+ stated_key r
  end.

(** Camel-case keys: no space, and no upper-case letter other than A-Z. *)
Fixpoint camel_key (s : string) : bool :=
  match s with
  | EmptyString => true
  | String c r =>
      negb (Ascii.eqb c " ") && (is_AZ c || negb (is_upper c)) && camel_key r
  end.

(** The keys the rewriting leaves alone: no upper-case letter, no space. *)
Fixpoint plain_key (s : string) : bool :=
  match s with
  | EmptyString => true
  | String c r => negb (is_upper c) && negb (Ascii.eqb c " ") && plain_key r
  end.

Fixpoint has_upper (s : string) : bool :=
  match s with
  | EmptyString => false
  | String c r => is_upper c || has_upper r
  end.

(** Lower-case ASCII words, such as [engine]. *)
Fixpoint lower_word (s : string) : bool :=
  match s with
  | EmptyString => true
  | String c r => (97 <=? code c) && (code c <=? 122) && lower_word r
  end.

End Spec.

(** ** Further definitions *)

(** The number of letters A-Z of a key. *)
Fixpoint count_AZ (s : string) : nat :=
  match s with
  | EmptyString => 0
  | String c r => (if is_AZ c then 1 else 0) + count_AZ r
  end.

(** The number of times a character is in a key. *)
Fixpoint count_char (a : ascii) (s : string) : nat :=
  match s with
  | EmptyString => 0
  | String c r => (if Ascii.eqb c a then 1 else 0) + count_char a r
  end.

(** Keys without an underscore. *)
Fixpoint no_underscore (s : string) : bool :=
  match s with
  | EmptyString => true
  | String c r => negb (Ascii.eqb c "_") && no_underscore r
  end.

(** A bag with every key rewritten in place. *)
Definition rename {other : Type} (o : obj other) : obj other :=
  map (fun p => (camelToUnderscore (fst p), snd p)) o.

(** The option names declared for [complete] and [search] by the type
    declarations of the package ([CompletionOpts], [SearchOpts]). *)
Definition CompletionOpts_fields : list string :=
  [ "engine"; "prompt"; "maxTokens"; "temperature"; "topP"; "n"; "stream";
    "logprobs"; "echo"; "stop"; "presencePenalty"; "frequencyPenalty";
    "bestOf"; "user"; "logitBias" ].

Definition SearchOpts_fields : list string :=
  [ "engine"; "documents"; "file"; "query"; "maxRerank"; "returnMetadata" ].

Section Callers.
Context {other : Type} `{JsOther other}.

(** Calls made on several clients, one after the other, going on after an
    exception. *)
Fixpoint run_on (cs : list (loc * call other)) (s : state other)
  : state other :=
  match cs with
  | [] => s
  | (this, c) :: r => run_on r (snd (invoke this c s))
  end.

(** What a call may do to an object: nothing, or remove its [engine]. *)
Definition engine_removed (o o' : obj other) : Prop :=
  o' = o \/ o' = Obj.delete "engine" o.

(** The body of the last request issued in a run. *)
Definition last_body (r : outcome promise * state other)
  : option (body other) :=
  data <$> last (net (snd r)).
End Callers.

(** * Properties *)

(** ** Strings *)

Section StringFacts.

Example split_sample : split " " "max Tokens" = ["max"; "Tokens"].
Proof. reflexivity. Qed.

Example join_sample : join "_" ["top"; "P"] = "top_P".
Proof. reflexivity. Qed.

Lemma split_not_nil sep s : split sep s <> [].
Proof.
  destruct s as [|c r]; simpl; [discriminate|].
  destruct (Ascii.eqb c sep); [discriminate|].
  destruct (split sep r); discriminate.
Qed.

Lemma join_cons sep h h' t :
  join sep (h :: h' :: t) = h +:+ sep +:+ join sep (h' :: t).
Proof. reflexivity. Qed.

Lemma join_split_sep sep r :
  join "_" (split sep (String sep r)) = String "_" (join "_" (split sep r)).
Proof.
  simpl split. rewrite Ascii.eqb_refl.
  pose proof (split_not_nil sep r) as Hne.
  destruct (split sep r) as [|h t]; [contradiction|].
  reflexivity.
Qed.

Lemma join_split_other sep c r :
  Ascii.eqb c sep = false ->
  join "_" (split sep (String c r)) = String c (join "_" (split sep r)).
Proof.
  intros Hc. simpl split. rewrite Hc.
  pose proof (split_not_nil sep r) as Hne.
  destruct (split sep r) as [|h [|h' t]]; [contradiction| reflexivity |].
  reflexivity.
Qed.

Lemma is_AZ_not_space c : is_AZ c = true -> Ascii.eqb c " " = false.
Proof. destruct c as [[] [] [] [] [] [] [] []]; vm_compute; congruence. Qed.

Lemma is_AZ_upper c : is_AZ c = true -> is_upper c = true.
Proof. unfold is_upper. intros ->. reflexivity. Qed.

Lemma lower_not_upper c : is_upper c = false -> lower c = c.
Proof. unfold lower. intros ->. reflexivity. Qed.

(** A lower-case ASCII letter is the image of itself only, once the
    letters A-Z are set apart. *)
Lemma lower_az_inv c :
  is_AZ c = false ->
  (97 <=? code (lower c)) && (code (lower c) <=? 122) = true ->
  lower c = c.
Proof.
  destruct c as [[] [] [] [] [] [] [] []]; vm_compute; congruence.
Qed.

End StringFacts.

(** ** The key-casing transform on one key *)

Section KeyRewriting.

Lemma toLowerCase_app a b :
  toLowerCase (a +:+ b) = toLowerCase a +:+ toLowerCase b.
Proof. induction a as [|c a IH]; simpl; [reflexivity | now rewrite IH]. Qed.

(** The three passes of the code (replace, split and join, lower-case) do
    what one pass over the characters does. *)
Lemma camelToUnderscore_rewrite key :
  camelToUnderscore key = Spec.rewrite_key key.
Proof.
  unfold camelToUnderscore.
  induction key as [|c r IH]; [reflexivity|].
  simpl replace_AZ. simpl Spec.rewrite_key. unfold Spec.rewrite_char.
  destruct (is_AZ c) eqn:HAZ.
  - rewrite join_split_sep.
    rewrite join_split_other by now apply is_AZ_not_space.
    simpl. now rewrite IH.
  - destruct (Ascii.eqb c " ") eqn:Hsp.
    + apply Ascii.eqb_eq in Hsp. subst c.
      rewrite join_split_sep. simpl. now rewrite IH.
    + rewrite join_split_other by assumption.
      simpl. now rewrite IH.
Qed.

Lemma rewrite_plain key : Spec.plain_key key = true -> Spec.rewrite_key key = key.
Proof.
  induction key as [|c r IH]; simpl; [reflexivity|].
  intros Hp. apply andb_prop in Hp as [Hp Hr].
  apply andb_prop in Hp as [Hu Hs].
  apply negb_true_iff in Hu, Hs.
  unfold Spec.rewrite_char.
  destruct (is_AZ c) eqn:HAZ.
  - apply is_AZ_upper in HAZ. congruence.
  - rewrite Hs. simpl. rewrite lower_not_upper by assumption.
    now rewrite IH.
Qed.


(** Only a lower-case ASCII word is rewritten to that word. *)
Lemma rewrite_lower_word_inv key w :
  Spec.lower_word w = true -> Spec.rewrite_key key = w -> key = w.
Proof.
  revert w. induction key as [|c r IH]; intros w Hw; simpl.
  - congruence.
  - unfold Spec.rewrite_char.
    destruct (is_AZ c) eqn:HAZ; [|destruct (Ascii.eqb c " ") eqn:Hsp];
      simpl; intros <-; simpl in Hw.
    + discriminate.
    + discriminate.
    + apply andb_prop in Hw as [Hc Hr].
      rewrite (lower_az_inv c HAZ Hc) in *.
      f_equal. now apply IH.
Qed.

Lemma camelToUnderscore_engine key :
  camelToUnderscore key = "engine" -> key = "engine".
Proof.
  rewrite camelToUnderscore_rewrite.
  now apply rewrite_lower_word_inv.
Qed.

End KeyRewriting.

(** ** Keys that do not collide *)

Section NoCollision.

Lemma lower_AZ_code c : is_AZ c = true -> code (lower c) = code c + 32.
Proof. destruct c as [[] [] [] [] [] [] [] []]; vm_compute; congruence. Qed.

Lemma lower_AZ_inj c1 c2 :
  is_AZ c1 = true -> is_AZ c2 = true -> lower c1 = lower c2 -> c1 = c2.
Proof.
  intros H1 H2 E. apply (f_equal code) in E.
  rewrite !lower_AZ_code in E by assumption.
  assert (code c1 = code c2) as Ec by lia.
  unfold code in Ec. apply (f_equal ascii_of_nat) in Ec.
  now rewrite !ascii_nat_embedding in Ec.
Qed.

(** The rewriting of one character of a camel-case key without underscore:
    an underscore and a letter for A-Z, the character itself otherwise. *)
Lemma rewrite_char_camel c :
  negb (Ascii.eqb c " ") && (is_AZ c || negb (is_upper c)) = true ->
  negb (Ascii.eqb c "_") = true ->
  if is_AZ c
  then Spec.rewrite_char c = String "_" (String (lower c) EmptyString)
  else Spec.rewrite_char c = String c EmptyString /\ c <> "_"%char.
Proof.
  destruct c as [[] [] [] [] [] [] [] []]; vm_compute; intros; try congruence;
    split; congruence.
Qed.

Lemma rewrite_key_inj k1 k2 :
  Spec.camel_key k1 = true -> no_underscore k1 = true ->
  Spec.camel_key k2 = true -> no_underscore k2 = true ->
  Spec.rewrite_key k1 = Spec.rewrite_key k2 -> k1 = k2.
Proof.
  revert k2. induction k1 as [|c1 r1 IH]; intros [|c2 r2]; simpl.
  - reflexivity.
  - intros _ _ Hc _ E. exfalso.
    unfold Spec.rewrite_char in E.
    destruct (is_AZ c2); [|destruct (Ascii.eqb c2 " ")]; discriminate.
  - intros Hc _ _ _ E. exfalso.
    unfold Spec.rewrite_char in E.
    destruct (is_AZ c1); [|destruct (Ascii.eqb c1 " ")]; discriminate.
  - intros Hc1 Hu1 Hc2 Hu2 E.
    apply andb_prop in Hc1 as [Hc1 Hr1]. apply andb_prop in Hu1 as [Hu1 Hn1].
    apply andb_prop in Hc2 as [Hc2 Hr2]. apply andb_prop in Hu2 as [Hu2 Hn2].
    pose proof (rewrite_char_camel c1 Hc1 Hu1) as R1.
    pose proof (rewrite_char_camel c2 Hc2 Hu2) as R2.
    destruct (is_AZ c1) eqn:A1, (is_AZ c2) eqn:A2.
    + rewrite R1, R2 in E. simpl in E. injection E as El Er.
      f_equal; [now apply lower_AZ_inj | now apply IH].
    + destruct R2 as [R2 N2]. rewrite R1, R2 in E. simpl in E.
      injection E as El Er. congruence.
    + destruct R1 as [R1 N1]. rewrite R1, R2 in E. simpl in E.
      injection E as El Er. congruence.
    + destruct R1 as [R1 N1], R2 as [R2 N2]. rewrite R1, R2 in E. simpl in E.
      injection E as El Er. f_equal; [assumption | now apply IH].
Qed.



End NoCollision.

(** ** Plain objects *)

Section ObjFacts.
Context {other : Type} `{JsOther other}.
Implicit Types (o : obj other) (v : value other) (k : string).

Example create_order :
  Obj.set "2" (VString "c")
    (Obj.set "b" (VString "b") (Obj.set "10" (@VString other "a") []))
  = [("2", VString "c"); ("10", VString "a"); ("b", VString "b")].
Proof. reflexivity. Qed.

Lemma lookup_overwrite_eq k v o :
  is_Some (Obj.lookup k o) -> Obj.lookup k (Obj.overwrite k v o) = Some v.
Proof.
  induction o as [|[k' v'] r IH]; simpl; intros Hs.
  - now destruct Hs.
  - destruct (String.eqb k' k) eqn:E; simpl; rewrite E; auto.
Qed.

Lemma lookup_overwrite_ne k k' v o :
  k' <> k -> Obj.lookup k' (Obj.overwrite k v o) = Obj.lookup k' o.
Proof.
  intros Hne. induction o as [|[k0 v0] r IH]; simpl; [reflexivity|].
  destruct (String.eqb k0 k) eqn:E; simpl.
  - apply String.eqb_eq in E. subst k0.
    now rewrite (proj2 (String.eqb_neq k k')).
  - now rewrite IH.
Qed.

Lemma lookup_place_index_eq n k v o :
  Obj.lookup k o = None -> Obj.lookup k (Obj.place_index n k v o) = Some v.
Proof.
  induction o as [|[k' v'] r IH]; simpl.
  - now rewrite String.eqb_refl.
  - destruct (String.eqb k' k) eqn:E; [discriminate|]. intros Hr.
    destruct (Obj.index_below n k'); simpl.
    + rewrite E. auto.
    + now rewrite String.eqb_refl.
Qed.

Lemma lookup_place_index_ne n k k' v o :
  k' <> k -> Obj.lookup k' (Obj.place_index n k v o) = Obj.lookup k' o.
Proof.
  intros Hne. induction o as [|[k0 v0] r IH]; simpl.
  - now rewrite (proj2 (String.eqb_neq k k')).
  - destruct (Obj.index_below n k0); simpl.
    + now rewrite IH.
    + now rewrite (proj2 (String.eqb_neq k k')).
Qed.

Lemma lookup_snoc_eq k v o :
  Obj.lookup k o = None -> Obj.lookup k (o ++ [(k, v)]) = Some v.
Proof.
  induction o as [|[k' v'] r IH]; simpl.
  - now rewrite String.eqb_refl.
  - destruct (String.eqb k' k); [discriminate | auto].
Qed.

Lemma lookup_snoc_ne k k' v o :
  k' <> k -> Obj.lookup k' (o ++ [(k, v)]) = Obj.lookup k' o.
Proof.
  intros Hne. induction o as [|[k0 v0] r IH]; simpl.
  - now rewrite (proj2 (String.eqb_neq k k')).
  - now rewrite IH.
Qed.

Lemma lookup_set_eq k v o : Obj.lookup k (Obj.set k v o) = Some v.
Proof.
  unfold Obj.set. destruct (Obj.lookup k o) eqn:E.
  - apply lookup_overwrite_eq. rewrite E. eauto.
  - unfold Obj.create. destruct (Obj.array_index k).
    + now apply lookup_place_index_eq.
    + now apply lookup_snoc_eq.
Qed.

Lemma lookup_set_ne k k' v o :
  k' <> k -> Obj.lookup k' (Obj.set k v o) = Obj.lookup k' o.
Proof.
  intros Hne. unfold Obj.set. destruct (Obj.lookup k o).
  - now apply lookup_overwrite_ne.
  - unfold Obj.create. destruct (Obj.array_index k).
    + now apply lookup_place_index_ne.
    + now apply lookup_snoc_ne.
Qed.

(** A write either runs the setter of [__proto__] or sets the property. *)
Lemma assign_cases b k v o :
  (k = "__proto__" /\ b = true
   /\ Obj.assign b k v o = (negb (Obj.hides_setter v), o))
  \/ Obj.assign b k v o = (b, Obj.set k v o).
Proof.
  unfold Obj.assign. destruct (String.eqb k "__proto__") eqn:E, b; simpl; auto.
  apply String.eqb_eq in E. auto.
Qed.

Lemma assign_not_proto b k v o :
  k <> "__proto__" -> Obj.assign b k v o = (b, Obj.set k v o).
Proof.
  intros Hk. unfold Obj.assign.
  now rewrite (proj2 (String.eqb_neq _ _) Hk).
Qed.

Lemma lookup_assign_eq b k v o :
  k <> "__proto__" -> Obj.lookup k (snd (Obj.assign b k v o)) = Some v.
Proof.
  intros Hk. rewrite assign_not_proto by assumption. apply lookup_set_eq.
Qed.

Lemma lookup_assign_ne b k k' v o :
  k' <> k ->
  Obj.lookup k' (snd (Obj.assign b k v o)) = Obj.lookup k' o.
Proof.
  intros Hne. destruct (assign_cases b k v o) as [(_ & _ & ->)| ->];
    [reflexivity | now apply lookup_set_ne].
Qed.

(** What becomes of the setter does not depend on the properties. *)
Lemma assign_setter b k v o o' :
  fst (Obj.assign b k v o) = fst (Obj.assign b k v o').
Proof. unfold Obj.assign. now destruct (String.eqb k "__proto__" && b). Qed.

Lemma lookup_delete_eq k o : Obj.lookup k (Obj.delete k o) = None.
Proof.
  induction o as [|[k' v'] r IH]; simpl; [reflexivity|].
  destruct (String.eqb k' k) eqn:E; simpl; [assumption|].
  now rewrite E.
Qed.

Lemma lookup_delete_ne k k' o :
  k' <> k -> Obj.lookup k' (Obj.delete k o) = Obj.lookup k' o.
Proof.
  intros Hne. induction o as [|[k0 v0] r IH]; simpl; [reflexivity|].
  destruct (String.eqb k0 k) eqn:E; simpl.
  - apply String.eqb_eq in E. subst k0.
    now rewrite (proj2 (String.eqb_neq k k')).
  - now rewrite IH.
Qed.

Lemma delete_absent k o : Obj.lookup k o = None -> Obj.delete k o = o.
Proof.
  induction o as [|[k' v'] r IH]; simpl; [reflexivity|].
  destruct (String.eqb k' k); [discriminate|].
  intros Hr. now rewrite IH.
Qed.

(** The keys of an object are the keys at which it has a property. *)
Lemma elem_of_keys k o : k ∈ Obj.keys o <-> is_Some (Obj.lookup k o).
Proof.
  unfold Obj.keys. induction o as [|[k' v'] r IH]; simpl.
  - split; [intros Hin; inversion Hin | intros [? ?]; discriminate].
  - rewrite elem_of_cons, IH.
    destruct (String.eqb k' k) eqn:E.
    + apply String.eqb_eq in E. subst. split; eauto.
    + apply String.eqb_neq in E. split; [intros [?|?]; congruence || auto | auto].
Qed.

(** Deleting a key keeps the other properties, in their order. *)
Lemma delete_keys k o :
  Obj.keys (Obj.delete k o)
  = List.filter (fun k' => negb (String.eqb k' k)) (Obj.keys o).
Proof.
  unfold Obj.keys. induction o as [|[k' v'] r IH]; simpl; [reflexivity|].
  destruct (String.eqb k' k); simpl; [assumption | now rewrite IH].
Qed.

(** Writing and deleting keep an object free of duplicate keys. *)
Lemma keys_overwrite k v o : Obj.keys (Obj.overwrite k v o) = Obj.keys o.
Proof.
  unfold Obj.keys. induction o as [|[k' v'] r IH]; simpl; [reflexivity|].
  destruct (String.eqb k' k); simpl; [reflexivity | now rewrite IH].
Qed.

Lemma keys_place_index n k v o :
  Obj.keys (Obj.place_index n k v o) ≡ₚ k :: Obj.keys o.
Proof.
  unfold Obj.keys. induction o as [|[k' v'] r IH]; simpl; [reflexivity|].
  destruct (Obj.index_below n k'); simpl; [|reflexivity].
  rewrite IH. apply Permutation_swap.
Qed.

Lemma keys_create k v o : Obj.keys (Obj.create k v o) ≡ₚ k :: Obj.keys o.
Proof.
  unfold Obj.create. destruct (Obj.array_index k).
  - apply keys_place_index.
  - unfold Obj.keys. rewrite map_app. simpl.
    symmetry. apply Permutation_cons_append.
Qed.



Lemma NoDup_delete k o :
  NoDup (Obj.keys o) -> NoDup (Obj.keys (Obj.delete k o)).
Proof.
  rewrite delete_keys. intros Hnd.
  induction Hnd as [|x l Hx Hnd IH]; simpl; [constructor|].
  destruct (negb (String.eqb x k)); [|assumption].
  apply NoDup_cons. split; [|assumption].
  intros Hin. apply Hx. apply list_elem_of_In in Hin.
  apply List.filter_In in Hin as [Hin _]. now apply list_elem_of_In.
Qed.

End ObjFacts.

(** ** The key-casing transform on a bag *)

Section TransformFacts.
Context {other : Type} `{JsOther other}.
Implicit Types (o opts : obj other) (data : bool * obj other) (k t : string).

(** A target key written from one source key only ends with the value of
    that source key. *)
Lemma copy_keys_lookup k0 t ks opts data :
  t <> "__proto__" ->
  camelToUnderscore k0 = t ->
  (forall k, k ∈ ks -> camelToUnderscore k = t -> k = k0) ->
  Obj.lookup t (snd (copy_keys ks opts data))
  = if decide (k0 ∈ ks) then Some (Obj.get k0 opts)
    else Obj.lookup t (snd data).
Proof.
  intros Ht Hk0. revert data.
  induction ks as [|key r IH]; intros data Hone; simpl.
  - destruct (decide (k0 ∈ [])) as [Hin|]; [inversion Hin | reflexivity].
  - rewrite IH by (intros k Hk; apply Hone; now right).
    destruct (decide (key = k0)) as [->|Hne].
    + rewrite Hk0, lookup_assign_eq by assumption.
      destruct (decide (k0 ∈ r)), (decide (k0 ∈ k0 :: r)) as [|Hn];
        try reflexivity.
      all: exfalso; apply Hn; now left.
    + assert (camelToUnderscore key <> t) as Hkt.
      { intros E. apply Hne. apply Hone; [now left | assumption]. }
      rewrite lookup_assign_ne by congruence.
      destruct (decide (k0 ∈ r)) as [Hin|Hnin],
               (decide (k0 ∈ key :: r)) as [Hin'|Hnin']; try reflexivity.
      * exfalso. apply Hnin'. now right.
      * apply elem_of_cons in Hin' as [?|?]; congruence.
Qed.

(** Every key of the result is a key of the start or a rewritten key. *)
Lemma copy_keys_keys_from t ks opts data :
  t ∈ Obj.keys (snd (copy_keys ks opts data)) ->
  t ∈ Obj.keys (snd data) \/ exists k, k ∈ ks /\ camelToUnderscore k = t.
Proof.
  revert data. induction ks as [|key r IH]; intros data; simpl; [auto|].
  intros Hin. apply IH in Hin as [Hin|(k & Hk & E)].
  - destruct (decide (t = camelToUnderscore key)) as [->|Hne].
    + right. exists key. split; [now left | reflexivity].
    + left. apply elem_of_keys. apply elem_of_keys in Hin.
      now rewrite lookup_assign_ne in Hin.
  - right. exists k. split; [now right | assumption].
Qed.

(** A key other than [__proto__] is a key of the result exactly when it is
    a key of the start or a rewritten key. *)
Lemma copy_keys_keys t ks opts data :
  t <> "__proto__" ->
  t ∈ Obj.keys (snd (copy_keys ks opts data))
  <-> t ∈ Obj.keys (snd data)
      \/ exists k, k ∈ ks /\ camelToUnderscore k = t.
Proof.
  intros Ht. split; [apply copy_keys_keys_from|].
  revert data. induction ks as [|key r IH]; intros data; simpl.
  - intros [?|(k & Hin & _)]; [assumption | inversion Hin].
  - intros Hor. apply IH. rewrite !elem_of_keys.
    destruct (decide (t = camelToUnderscore key)) as [->|Hne].
    + left. rewrite lookup_assign_eq by assumption. eauto.
    + rewrite lookup_assign_ne by assumption.
      destruct Hor as [Hin|(k & Hin & E)]; [left; now apply elem_of_keys|].
      apply elem_of_cons in Hin as [->|Hin]; [congruence|].
      right. eauto.
Qed.

Lemma transform_keys_from t opts :
  t ∈ Obj.keys (transform opts) ->
  exists k, k ∈ Obj.keys opts /\ camelToUnderscore k = t.
Proof.
  intros Hin. apply copy_keys_keys_from in Hin as [Hin|?]; [|assumption].
  inversion Hin.
Qed.

Lemma transform_keys t opts :
  t <> "__proto__" ->
  t ∈ Obj.keys (transform opts)
  <-> exists k, k ∈ Obj.keys opts /\ camelToUnderscore k = t.
Proof.
  intros Ht. unfold transform. rewrite copy_keys_keys by assumption.
  split; [|auto]. intros [Hin|?]; [inversion Hin | assumption].
Qed.

(** Where no other key of the bag is rewritten to the same key, the
    rewritten key carries the value of the original one. *)
Lemma transform_lookup k opts :
  k ∈ Obj.keys opts ->
  camelToUnderscore k <> "__proto__" ->
  (forall k', k' ∈ Obj.keys opts ->
              camelToUnderscore k' = camelToUnderscore k -> k' = k) ->
  Obj.lookup (camelToUnderscore k) (transform opts) = Some (Obj.get k opts).
Proof.
  intros Hin Hp Hone. unfold transform.
  rewrite (copy_keys_lookup k) by auto.
  destruct (decide (k ∈ Obj.keys opts)); [reflexivity | contradiction].
Qed.

(** A bag with a key that is not rewritten to [__proto__] gives a mapping
    with a key; a bag without keys gives the mapping without keys. *)
Lemma transform_not_nil k opts :
  k ∈ Obj.keys opts -> camelToUnderscore k <> "__proto__" ->
  transform opts <> [].
Proof.
  intros Hin Hp E.
  assert (camelToUnderscore k ∈ Obj.keys (transform opts)) as Hk
    by (apply transform_keys; eauto).
  rewrite E in Hk. inversion Hk.
Qed.

Lemma transform_nil opts :
  Forall (fun k => camelToUnderscore k <> "__proto__") (Obj.keys opts) ->
  transform opts = [] <-> opts = [].
Proof.
  intros Hall. split; [|intros ->; reflexivity].
  destruct opts as [|[k v] r]; [reflexivity|]. intros E. exfalso.
  apply Forall_cons in Hall as [Hp _].
  apply (transform_not_nil k ((k, v) :: r)); [now left | exact Hp | exact E].
Qed.



Lemma transform_engine opts v :
  Obj.lookup "engine" opts = Some v ->
  Obj.lookup "engine" (transform opts) = Some v.
Proof.
  intros Hv.
  assert ("engine" ∈ Obj.keys opts) as Hin
    by (apply elem_of_keys; rewrite Hv; eauto).
  assert (Obj.lookup (camelToUnderscore "engine") (transform opts)
          = Some (Obj.get "engine" opts)) as E.
  { apply transform_lookup; [assumption | discriminate |].
    intros k' _ Hk'. now apply camelToUnderscore_engine. }
  unfold Obj.get in E. rewrite Hv in E. exact E.
Qed.

End TransformFacts.

(** ** Running the methods *)

Section RunFacts.
Context {other : Type} `{JsOther other}.
Implicit Types (s : state other) (o self : obj other) (this opts : loc)
  (arg : option loc).

Lemma deref_some l s o : heap s !! l = Some o -> deref l s = (Ret o, s).
Proof. unfold deref. now intros ->. Qed.

Lemma deref_none l s : heap s !! l = None -> deref l s = (Throw TypeError, s).
Proof. unfold deref. now intros ->. Qed.

Lemma body_of_keys (data : obj other) :
  match length (Obj.keys data) with
  | 0 => BodyEmptyString
  | S _ => BodyObject data
  end = body_of data.
Proof. now destruct data. Qed.

(** The dispatcher on a bag that is there. *)
Lemma send_request_some this url method opts s self o :
  heap s !! this = Some self ->
  heap s !! opts = Some o ->
  _send_request this url method (Some opts) s
  = (Ret (PAxios (length (net s))),
     State (heap s)
       (net s ++ [Request url (bearer_headers (Obj.get "_api_key" self))
                    (body_of (transform o)) method])
       (shapes s)).
Proof.
  intros Hthis Hopts. unfold _send_request, bind, bag_or_default.
  rewrite Hopts, (deref_some _ _ _ Hthis).
  unfold axios. now rewrite body_of_keys.
Qed.

(** The dispatcher without a bag: the default [{}]. *)
Lemma send_request_none this url method s self :
  heap s !! this = Some self ->
  _send_request this url method None s
  = (Ret (PAxios (length (net s))),
     State (heap s)
       (net s ++ [Request url (bearer_headers (Obj.get "_api_key" self))
                    BodyEmptyString method])
       (shapes s)).
Proof.
  intros Hthis. unfold _send_request, bind, bag_or_default.
  now rewrite (deref_some _ _ _ Hthis).
Qed.

(** The dispatcher reads the heap and never writes it. *)
Lemma send_request_heap this url method arg s :
  heap (snd (_send_request this url method arg s)) = heap s.
Proof.
  unfold _send_request, bind, bag_or_default, deref, axios.
  destruct arg as [l|]; [destruct (heap s !! l)|];
    simpl; destruct (heap s !! this); reflexivity.
Qed.

Lemma send_request_shapes this url method arg s :
  shapes (snd (_send_request this url method arg s)) = shapes s.
Proof.
  unfold _send_request, bind, bag_or_default, deref, axios.
  destruct arg as [l|]; [destruct (heap s !! l)|];
    simpl; destruct (heap s !! this); reflexivity.
Qed.

(** On a client that is there the dispatcher adds one request, and that
    request carries the key the client holds. *)
Lemma send_request_net this url method arg s self :
  heap s !! this = Some self ->
  exists new,
    net (snd (_send_request this url method arg s)) = net s ++ new
    /\ Forall (fun r => headers r = bearer_headers (Obj.get "_api_key" self)) new.
Proof.
  intros Hthis. unfold _send_request, bind, bag_or_default.
  destruct arg as [l|]; [destruct (heap s !! l)|];
    rewrite (deref_some _ _ _ Hthis); simpl;
    (eexists; split; [reflexivity|]; repeat constructor).
Qed.

Lemma send_request_no_error this url method arg s message :
  fst (_send_request this url method arg s) <> Throw (Error message).
Proof.
  unfold _send_request, bind, bag_or_default, deref, axios.
  destruct arg as [l|]; [destruct (heap s !! l)|];
    simpl; destruct (heap s !! this); simpl; discriminate.
Qed.

Lemma get_delete_ne k k' o :
  k' <> k -> Obj.get k' (Obj.delete k o) = Obj.get k' o.
Proof. intros Hne. unfold Obj.get. now rewrite lookup_delete_ne. Qed.

(** The client object after [delete opts.engine], whether or not the bag
    is the client itself. *)
Lemma client_after_delete this opts s self o :
  heap s !! this = Some self ->
  heap s !! opts = Some o ->
  exists self',
    <[opts := Obj.delete "engine" o]> (heap s) !! this = Some self'
    /\ Obj.get "_api_key" self' = Obj.get "_api_key" self.
Proof.
  intros Hthis Hopts. destruct (decide (opts = this)) as [->|Hne].
  - exists (Obj.delete "engine" o). split.
    + apply list_lookup_insert_eq. eapply lookup_lt_Some, Hopts.
    + assert (self = o) as -> by congruence.
      now apply get_delete_ne.
  - exists self. split; [|reflexivity].
    now rewrite list_lookup_insert_ne.
Qed.

Lemma bag_after_delete opts s o :
  heap s !! opts = Some o ->
  <[opts := Obj.delete "engine" o]> (heap s) !! opts
  = Some (Obj.delete "engine" o).
Proof. intros Hopts. apply list_lookup_insert_eq. eapply lookup_lt_Some, Hopts. Qed.

(** [opts.engine] and [delete opts.engine] on a bag that is there. *)
Lemma read_engine_some this opts s o :
  heap s !! opts = Some o ->
  read_engine this opts s = (Ret (engine_of this opts s o), s).
Proof. unfold read_engine. now intros ->. Qed.

Lemma delete_property_ok opts s o :
  heap s !! opts = Some o ->
  can_delete s opts "engine" o = true ->
  delete_property opts "engine" s
  = (Ret tt, State (<[opts := Obj.delete "engine" o]> (heap s)) (net s) (shapes s)).
Proof. unfold delete_property. now intros -> ->. Qed.

Lemma delete_property_fixed opts s o :
  heap s !! opts = Some o ->
  can_delete s opts "engine" o = false ->
  delete_property opts "engine" s = (Throw TypeError, s).
Proof. unfold delete_property. now intros -> ->. Qed.

Lemma engine_of_own this opts s o v :
  Obj.lookup "engine" o = Some v -> engine_of this opts s o = v.
Proof. unfold engine_of. now intros ->. Qed.

Lemma engine_of_absent this opts s o :
  Obj.lookup "engine" o = None ->
  inherits_methods this opts s = false ->
  engine_of this opts s o = VUndefined.
Proof. unfold engine_of. now intros -> ->. Qed.

(** With no engine of its own, a bag gives no string for [opts.engine]. *)
Lemma engine_of_not_listed this opts s o names :
  Obj.lookup "engine" o = None ->
  array_includes names (engine_of this opts s o) = false.
Proof.
  unfold engine_of. intros ->. now destruct (inherits_methods this opts s).
Qed.

Lemma complete_run this opts s self o :
  heap s !! this = Some self ->
  heap s !! opts = Some o ->
  can_delete s opts "engine" o = true ->
  complete this opts s
  = (Ret (PAxios (length (net s))),
     State (<[opts := Obj.delete "engine" o]> (heap s))
       (net s ++
        [Request
           (config.completionURL
              (or_else (engine_of this opts s o) (VString DEFAULT_ENGINE)))
           (bearer_headers (Obj.get "_api_key" self))
           (body_of (transform (Obj.delete "engine" o))) "post"])
       (shapes s)).
Proof.
  intros Hthis Hopts Hdel. unfold complete, bind at 1 2.
  rewrite (read_engine_some _ _ _ _ Hopts), (delete_property_ok _ _ _ Hopts Hdel).
  destruct (client_after_delete _ _ _ _ _ Hthis Hopts) as (self' & Hs & Hk).
  erewrite send_request_some;
    [| exact Hs | simpl; now apply bag_after_delete].
  simpl. now rewrite Hk.
Qed.

Lemma search_run this opts s self o :
  heap s !! this = Some self ->
  heap s !! opts = Some o ->
  can_delete s opts "engine" o = true ->
  search this opts s
  = (Ret (PAxios (length (net s))),
     State (<[opts := Obj.delete "engine" o]> (heap s))
       (net s ++
        [Request
           (config.searchURL
              (or_else (engine_of this opts s o) (VString DEFAULT_ENGINE)))
           (bearer_headers (Obj.get "_api_key" self))
           (body_of (transform (Obj.delete "engine" o))) "post"])
       (shapes s)).
Proof.
  intros Hthis Hopts Hdel. unfold search, bind at 1 2.
  rewrite (read_engine_some _ _ _ _ Hopts), (delete_property_ok _ _ _ Hopts Hdel).
  destruct (client_after_delete _ _ _ _ _ Hthis Hopts) as (self' & Hs & Hk).
  erewrite send_request_some;
    [| exact Hs | simpl; now apply bag_after_delete].
  simpl. now rewrite Hk.
Qed.

(** A bag whose engine cannot be deleted: the call throws before anything
    is sent or changed. *)
Lemma complete_fixed this opts s o :
  heap s !! opts = Some o ->
  can_delete s opts "engine" o = false ->
  complete this opts s = (Throw TypeError, s).
Proof.
  intros Hopts Hdel. unfold complete, bind at 1 2.
  now rewrite (read_engine_some _ _ _ _ Hopts),
    (delete_property_fixed _ _ _ Hopts Hdel).
Qed.

Lemma search_fixed this opts s o :
  heap s !! opts = Some o ->
  can_delete s opts "engine" o = false ->
  search this opts s = (Throw TypeError, s).
Proof.
  intros Hopts Hdel. unfold search, bind at 1 2.
  now rewrite (read_engine_some _ _ _ _ Hopts),
    (delete_property_fixed _ _ _ Hopts Hdel).
Qed.

Lemma embeddings_run_reject this opts s o :
  heap s !! opts = Some o ->
  array_includes availableEngineNames (engine_of this opts s o) = false ->
  embeddings this opts s = (Throw (Error unknown_engine_message), s).
Proof.
  intros Hopts Hno. unfold embeddings, bind at 1 2.
  rewrite (read_engine_some _ _ _ _ Hopts).
  unfold _check_embeddings_engine_name. now rewrite Hno.
Qed.

Lemma embeddings_run_accept this opts s self o :
  heap s !! this = Some self ->
  heap s !! opts = Some o ->
  array_includes availableEngineNames (engine_of this opts s o) = true ->
  embeddings this opts s
  = (Ret (PAxios (length (net s))),
     State (heap s)
       (net s ++
        [Request (config.embeddingsUrl (engine_of this opts s o))
           (bearer_headers (Obj.get "_api_key" self))
           (body_of (transform o)) "post"])
       (shapes s)).
Proof.
  intros Hthis Hopts Hyes. unfold embeddings, bind at 1 2.
  rewrite (read_engine_some _ _ _ _ Hopts).
  unfold _check_embeddings_engine_name. rewrite Hyes. unfold ret, bind.
  rewrite (read_engine_some _ _ _ _ Hopts).
  now apply send_request_some.
Qed.

(** A bag that is not there: reading its [engine] is a [TypeError]. *)
Lemma read_engine_none this opts s :
  heap s !! opts = None -> read_engine this opts s = (Throw TypeError, s).
Proof. unfold read_engine. now intros ->. Qed.

Lemma complete_dangling this opts s :
  heap s !! opts = None -> complete this opts s = (Throw TypeError, s).
Proof.
  intros Hl. unfold complete, bind at 1. now rewrite (read_engine_none _ _ _ Hl).
Qed.

Lemma search_dangling this opts s :
  heap s !! opts = None -> search this opts s = (Throw TypeError, s).
Proof.
  intros Hl. unfold search, bind at 1. now rewrite (read_engine_none _ _ _ Hl).
Qed.

Lemma embeddings_dangling this opts s :
  heap s !! opts = None -> embeddings this opts s = (Throw TypeError, s).
Proof.
  intros Hl. unfold embeddings, bind at 1.
  now rewrite (read_engine_none _ _ _ Hl).
Qed.

(** [complete] and [search] never throw the error of the validator. *)
Lemma complete_no_error this opts s message :
  fst (complete this opts s) <> Throw (Error message).
Proof.
  destruct (heap s !! opts) as [o|] eqn:Hl;
    [|now rewrite (complete_dangling _ _ _ Hl)].
  destruct (can_delete s opts "engine" o) eqn:Hdel;
    [|now rewrite (complete_fixed _ _ _ _ Hl Hdel)].
  unfold complete, bind at 1 2.
  rewrite (read_engine_some _ _ _ _ Hl), (delete_property_ok _ _ _ Hl Hdel).
  apply send_request_no_error.
Qed.

Lemma search_no_error this opts s message :
  fst (search this opts s) <> Throw (Error message).
Proof.
  destruct (heap s !! opts) as [o|] eqn:Hl;
    [|now rewrite (search_dangling _ _ _ Hl)].
  destruct (can_delete s opts "engine" o) eqn:Hdel;
    [|now rewrite (search_fixed _ _ _ _ Hl Hdel)].
  unfold search, bind at 1 2.
  rewrite (read_engine_some _ _ _ _ Hl), (delete_property_ok _ _ _ Hl Hdel).
  apply send_request_no_error.
Qed.

(** What [complete] and [search] do to the heap when they delete. *)
Lemma complete_heap this opts s o :
  heap s !! opts = Some o ->
  can_delete s opts "engine" o = true ->
  heap (snd (complete this opts s)) = <[opts := Obj.delete "engine" o]> (heap s).
Proof.
  intros Hl Hdel. unfold complete, bind at 1 2.
  rewrite (read_engine_some _ _ _ _ Hl), (delete_property_ok _ _ _ Hl Hdel).
  now rewrite send_request_heap.
Qed.

Lemma search_heap this opts s o :
  heap s !! opts = Some o ->
  can_delete s opts "engine" o = true ->
  heap (snd (search this opts s)) = <[opts := Obj.delete "engine" o]> (heap s).
Proof.
  intros Hl Hdel. unfold search, bind at 1 2.
  rewrite (read_engine_some _ _ _ _ Hl), (delete_property_ok _ _ _ Hl Hdel).
  now rewrite send_request_heap.
Qed.

Lemma array_includes_In names (e : string) :
  array_includes names (@VString other e) = true <-> In e names.
Proof.
  simpl. rewrite existsb_exists. split.
  - intros (x & Hin & Heq). apply String.eqb_eq in Heq. now subst.
  - intros Hin. exists e. split; [assumption | apply String.eqb_refl].
Qed.

End RunFacts.

(** ** Sample runs *)

Section Samples.

Example rewrite_samples :
  map camelToUnderscore
    ["presencePenalty"; "logitBias"; "returnMetadata"; "userID"; "Foo"; "a b"]
  = ["presence_penalty"; "logit_bias"; "return_metadata"; "user_i_d"; "_foo";
     "a_b"].
Proof. reflexivity. Qed.

(** Two keys rewritten to the same key: the later one wins, in the place of
    the earlier one. *)
Example transform_collision :
  transform [("maxTokens", @VString prim "5"); ("n", VString "1");
             ("max_tokens", VString "7")]
  = [("max_tokens", VString "7"); ("n", VString "1")].
Proof. reflexivity. Qed.

(** A write to [__proto__] runs the setter and leaves no entry; after
    [null] has been installed as the prototype, the next one makes an
    entry. *)
Example transform_proto :
  transform [("__proto__", @VOther prim (PBool true))] = []
  /\ transform [("_Proto__", @VOther prim PNull); (" _proto__", VString "x")]
     = [("__proto__", VString "x")].
Proof. split; reflexivity. Qed.

Example complete_sample :
  complete 0 1
    (sample_state [("engine", VString "curie"); ("prompt", VString "Hello");
                   ("maxTokens", VString "5")])
  = (Ret (PAxios 0),
     State [sample_client;
            [("prompt", VString "Hello"); ("maxTokens", VString "5")]]
       [Request "https://api.openai.com/v1/engines/curie/completions"
          [("Authorization", "Bearer sk-test");
           ("Content-Type", "application/json")]
          (BodyObject [("prompt", VString "Hello"); ("max_tokens", VString "5")])
          "post"]
       sample_shapes).
Proof. reflexivity. Qed.

Example engines_sample :
  engines 0 (sample_state [])
  = (Ret (PAxios 0),
     State [sample_client; []]
       [Request "https://api.openai.com/v1/engines"
          [("Authorization", "Bearer sk-test");
           ("Content-Type", "application/json")]
          BodyEmptyString "get"]
       sample_shapes).
Proof. reflexivity. Qed.

Example embeddings_sample :
  embeddings 0 1 (sample_state [("engine", VString "davinci")])
  = (Throw (Error unknown_engine_message),
     sample_state [("engine", VString "davinci")]).
Proof. reflexivity. Qed.

(** A frozen bag keeps its engine: the call throws and sends nothing. *)
Example complete_frozen_sample :
  complete 0 1 (frozen_state [("engine", VString "curie")])
  = (Throw TypeError, frozen_state [("engine", VString "curie")]).
Proof. reflexivity. Qed.

(** The bag may be the client itself: its engine is then the method that
    it inherits. *)
Example complete_on_client :
  last_url (complete 0 0 (sample_state []))
  = Some ("https://api.openai.com/v1/engines/" +:+ engine_source
          +:+ "/completions")
  /\ last_body (complete 0 0 (sample_state []))
     = Some (BodyObject [("_api_key", VString "sk-test")]).
Proof. split; reflexivity. Qed.

End Samples.

(** * The claims of the specification *)

(** ** The key-casing transform *)



(** Outside the camel-case keys: a space becomes an underscore too. *)
Example space_becomes_underscore :
  Spec.has_upper "a b" = false
  /\ Spec.stated_key "a b" = "a b"
  /\ camelToUnderscore "a b" = "a_b".
Proof. repeat split. Qed.

(** ** The URL builders *)

(** C4.  Each URL builder returns the origin, the version prefix and its
    path, with the engine string inserted as it is. *)
Theorem C4_url_builders : forall other (J : JsOther other) (e : string),
  config.completionURL (VString e)
  = "https://api.openai.com/v1/engines/" +:+ e +:+ "/completions"
  /\ config.searchURL (VString e)
     = "https://api.openai.com/v1/engines/" +:+ e +:+ "/search"
  /\ config.embeddingsUrl (VString e)
     = "https://api.openai.com/v1/engines/" +:+ e +:+ "/embeddings"
  /\ config.engineUrl (VString e) = "https://api.openai.com/v1/engines/" +:+ e
  /\ config.enginesUrl = "https://api.openai.com/v1/engines"
  /\ config.classificationsUrl = "https://api.openai.com/v1/classifications"
  /\ config.answersUrl = "https://api.openai.com/v1/answers"
  /\ config.filesUrl = "https://api.openai.com/v1/files"
  /\ config.OPEN_AI_URL = config.ORIGIN +:+ "/" +:+ config.API_VERSION
  /\ config.ORIGIN = "https://api.openai.com"
  /\ config.API_VERSION = "v1".
Proof.
  intros other J e. repeat split; reflexivity.
Qed.

(** ** The engine-name validator *)

(** C2.  [embeddings(opts)] throws exactly when [opts.engine] is not in
    the allow-list of sixteen names, and then nothing has been sent and
    nothing has changed; for a name of the list the request is issued.  No
    other method ever throws the error of the validator: [answers],
    [classification], [engines] and [engine] go through whatever the engine
    is, and so do [complete] and [search] whenever the engine can be deleted
    from the bag. *)
Theorem C2_embeddings_engine_validation :
  forall other (J : JsOther other) (s : state other) (this opts : loc)
         (self o : obj other),
    heap s !! this = Some self ->
    heap s !! opts = Some o ->
    ((exists e, fst (embeddings this opts s) = Throw e)
     <-> array_includes availableEngineNames (engine_of this opts s o) = false)
    /\ (array_includes availableEngineNames (engine_of this opts s o) = false ->
        embeddings this opts s = (Throw (Error unknown_engine_message), s))
    /\ (array_includes availableEngineNames (engine_of this opts s o) = true ->
        embeddings this opts s
        = (Ret (PAxios (length (net s))),
           State (heap s)
             (net s ++
              [Request (config.embeddingsUrl (engine_of this opts s o))
                 (bearer_headers (Obj.get "_api_key" self))
                 (body_of (transform o)) "post"])
             (shapes s)))
    /\ (forall v, Obj.lookup "engine" o = Some v -> engine_of this opts s o = v)
    /\ (Obj.lookup "engine" o = None ->
        array_includes availableEngineNames (engine_of this opts s o) = false)
    /\ (forall e : string,
          array_includes availableEngineNames (@VString other e) = true
          <-> In e availableEngineNames)
    /\ length availableEngineNames = 16
    /\ NoDup availableEngineNames
    /\ (forall (c : call other) message,
          (forall l, c <> CallEmbeddings l) ->
          fst (invoke this c s) <> Throw (Error message))
    /\ (can_delete s opts "engine" o = true ->
        (exists p s', complete this opts s = (Ret p, s'))
        /\ (exists p s', search this opts s = (Ret p, s')))
    /\ (exists p s', answers this (Some opts) s = (Ret p, s'))
    /\ (exists p s', classification this (Some opts) s = (Ret p, s'))
    /\ (exists p s', engines this s = (Ret p, s'))
    /\ (forall name, exists p s', engine this name s = (Ret p, s')).
Proof.
  intros other J s this opts self o Hthis Hopts.
  split; [|split; [|split; [|split; [|split; [|split; [|split; [|split;
    [|split; [|split]]]]]]]]].
  - destruct (array_includes availableEngineNames (engine_of this opts s o)) eqn:E.
    + rewrite (embeddings_run_accept _ _ _ _ _ Hthis Hopts E). simpl.
      split; [intros [e He]; discriminate | discriminate].
    + rewrite (embeddings_run_reject _ _ _ _ Hopts E). simpl.
      split; eauto.
  - now apply embeddings_run_reject.
  - now apply embeddings_run_accept.
  - intros v Hv. now apply engine_of_own.
  - intros Hno. now apply engine_of_not_listed.
  - intros e. apply array_includes_In.
  - reflexivity.
  - apply (bool_decide_unpack _). vm_compute. exact I.
  - intros c message Hc.
    destruct c as [l|args|l|arg|arg| |name|l]; simpl.
    + apply complete_no_error.
    + discriminate.
    + apply search_no_error.
    + apply send_request_no_error.
    + apply send_request_no_error.
    + apply send_request_no_error.
    + apply send_request_no_error.
    + now destruct (Hc l).
  - intros Hdel. split.
    + rewrite (complete_run _ _ _ _ _ Hthis Hopts Hdel). eauto.
    + rewrite (search_run _ _ _ _ _ Hthis Hopts Hdel). eauto.
  - repeat split.
    + unfold answers. rewrite (send_request_some _ _ _ _ _ _ _ Hthis Hopts). eauto.
    + unfold classification.
      rewrite (send_request_some _ _ _ _ _ _ _ Hthis Hopts). eauto.
    + unfold engines. rewrite (send_request_none _ _ _ _ _ Hthis). eauto.
    + intros name. unfold engine.
      rewrite (send_request_none _ _ _ _ _ Hthis). eauto.
Qed.

Lemma C2_embeddings_engine_validation_witness :
  embeddings 0 1 (sample_state [("engine", VString "not-a-real-engine")])
  = (Throw (Error unknown_engine_message),
     sample_state [("engine", VString "not-a-real-engine")]).
Proof.
  apply (proj1 (proj2
    (C2_embeddings_engine_validation prim _
       (sample_state [("engine", VString "not-a-real-engine")]) 0 1
       sample_client [("engine", VString "not-a-real-engine")]
       eq_refl eq_refl))).
  reflexivity.
Defined.

(** C5, as amended.  For every engine that is not in the allow-list the
    validator throws an error whose message is the same fixed text: it
    contains the list of the valid names (joined with commas), hence every
    one of them. *)
Theorem C5_unknown_engine_message :
  forall other (J : JsOther other) (engine : value other) (s : state other),
    array_includes availableEngineNames engine = false ->
    _check_embeddings_engine_name engine s
    = (Throw (Error unknown_engine_message), s)
    /\ unknown_engine_message
       = "Unknown engine name for embeddings. Available engine names are "
         +:+ join "," availableEngineNames
    /\ includes unknown_engine_message (join "," availableEngineNames) = true
    /\ Forall (fun name => includes unknown_engine_message name = true)
         availableEngineNames.
Proof.
  intros other J engine s Hno. split; [|split; [|split]].
  - unfold _check_embeddings_engine_name. now rewrite Hno.
  - reflexivity.
  - vm_compute. reflexivity.
  - apply Forall_forall. intros name Hin.
    apply list_elem_of_In in Hin. simpl in Hin.
    repeat (destruct Hin as [<-|Hin]; [vm_compute; reflexivity|]).
    contradiction.
Qed.

Lemma C5_unknown_engine_message_witness :
  _check_embeddings_engine_name (VString "not-a-real-engine") (sample_state [])
  = (Throw (Error unknown_engine_message), sample_state []).
Proof.
  apply (C5_unknown_engine_message prim _ (VString "not-a-real-engine")
           (sample_state [])).
  reflexivity.
Defined.

(** C5, as stated, fails: the message does not contain the engine name
    that was tried. *)
Lemma C5_message_omits_engine :
  ~ (forall (e : string) (s : state prim),
       array_includes availableEngineNames (@VString prim e) = false ->
       exists message,
         _check_embeddings_engine_name (VString e) s = (Throw (Error message), s)
         /\ includes message e = true
         /\ includes message (join "," availableEngineNames) = true).
Proof.
  intros Hall.
  destruct (Hall "not-a-real-engine" (sample_state []) eq_refl)
    as (message & Hrun & Hin & _).
  vm_compute in Hrun. injection Hrun as <-.
  vm_compute in Hin. discriminate.
Qed.

(** ** The body of a request *)

(** C3.  Whatever the URL, the method and the bag, the dispatcher issues
    one request to that URL with that method; its body is the empty string
    when the transformed mapping has no key and the transformed mapping
    itself otherwise.  For a bag none of whose keys is rewritten to
    [__proto__] (no camel-case name without an underscore is) the former
    happens exactly when the bag has no key, as it does for a call without
    a bag. *)
Theorem C3_request_body :
  forall other (J : JsOther other) (s : state other) (this : loc)
         (u m : string) (arg : option loc) (self o : obj other),
    heap s !! this = Some self ->
    match arg with Some l => heap s !! l = Some o | None => o = [] end ->
    exists req,
      _send_request this u m arg s
      = (Ret (PAxios (length (net s))),
         State (heap s) (net s ++ [req]) (shapes s))
      /\ url req = u
      /\ method req = m
      /\ (Obj.keys (transform o) = [] -> data req = BodyEmptyString)
      /\ (Obj.keys (transform o) <> [] -> data req = BodyObject (transform o))
      /\ (Forall (fun k => camelToUnderscore k <> "__proto__") (Obj.keys o) ->
          (data req = BodyEmptyString <-> Obj.keys o = [])).
Proof.
  intros other J s this u m arg self o Hthis Harg.
  exists (Request u (bearer_headers (Obj.get "_api_key" self))
            (body_of (transform o)) m).
  split.
  { destruct arg as [l|].
    - now apply send_request_some.
    - subst o. now apply send_request_none. }
  simpl. do 2 (split; [reflexivity|]).
  split; [|split].
  - destruct (transform o); [reflexivity | discriminate].
  - destruct (transform o); [intros Hne; now destruct Hne | reflexivity].
  - intros Hall.
    assert (Obj.keys o = [] <-> transform o = []) as ->.
    { rewrite (transform_nil o Hall). destruct o; [tauto|].
      split; discriminate. }
    destruct (transform o); simpl; split; congruence.
Qed.

Lemma C3_request_body_witness :
  exists req,
    _send_request 0 "https://api.openai.com/v1/answers" "post" (Some 1)
      (sample_state [("maxTokens", VOther (PBool true))])
    = (Ret (PAxios 0),
       State [sample_client; [("maxTokens", VOther (PBool true))]] [req]
         sample_shapes)
    /\ data req = BodyObject [("max_tokens", VOther (PBool true))].
Proof.
  destruct (C3_request_body prim _
              (sample_state [("maxTokens", VOther (PBool true))]) 0
              "https://api.openai.com/v1/answers" "post" (Some 1)
              sample_client [("maxTokens", VOther (PBool true))]
              eq_refl eq_refl)
    as (req & Hrun & _ & _ & _ & Hobj & _).
  exists req. split; [exact Hrun|].
  apply Hobj. discriminate.
Defined.

(** ** The default engine *)

(** C6, as amended.  [complete] and [search] send their request whenever
    the engine can be deleted from the bag, and whenever they send it: when
    the bag has no engine they address the engine ["davinci"]; when it has
    one that is truthy (for a string: not empty) they address that engine;
    an engine that is falsy, such as the empty string, is replaced by
    ["davinci"] too. *)
Theorem C6_default_engine :
  forall other (J : JsOther other) (s : state other) (this opts : loc)
         (self o : obj other),
    heap s !! this = Some self ->
    heap s !! opts = Some o ->
    (can_delete s opts "engine" o = true ->
     (exists p, fst (complete this opts s) = Ret p)
     /\ (exists p, fst (search this opts s) = Ret p))
    /\ (Obj.lookup "engine" o = None ->
        inherits_methods this opts s = false ->
        (forall p, fst (complete this opts s) = Ret p ->
           last_url (complete this opts s)
           = Some "https://api.openai.com/v1/engines/davinci/completions")
        /\ (forall p, fst (search this opts s) = Ret p ->
              last_url (search this opts s)
              = Some "https://api.openai.com/v1/engines/davinci/search"))
    /\ (forall e : string,
          Obj.lookup "engine" o = Some (VString e) -> e <> "" ->
          (forall p, fst (complete this opts s) = Ret p ->
             last_url (complete this opts s)
             = Some ("https://api.openai.com/v1/engines/" +:+ e
                     +:+ "/completions"))
          /\ (forall p, fst (search this opts s) = Ret p ->
                last_url (search this opts s)
                = Some ("https://api.openai.com/v1/engines/" +:+ e
                        +:+ "/search")))
    /\ (forall v,
          Obj.lookup "engine" o = Some v -> truthy v = true ->
          (forall p, fst (complete this opts s) = Ret p ->
             last_url (complete this opts s) = Some (config.completionURL v))
          /\ (forall p, fst (search this opts s) = Ret p ->
                last_url (search this opts s) = Some (config.searchURL v)))
    /\ (forall v,
          Obj.lookup "engine" o = Some v -> truthy v = false ->
          (forall p, fst (complete this opts s) = Ret p ->
             last_url (complete this opts s)
             = Some "https://api.openai.com/v1/engines/davinci/completions")
          /\ (forall p, fst (search this opts s) = Ret p ->
                last_url (search this opts s)
                = Some "https://api.openai.com/v1/engines/davinci/search")).
Proof.
  intros other J s this opts self o Hthis Hopts.
  destruct (can_delete s opts "engine" o) eqn:Hdel.
  - unfold last_url.
    rewrite (complete_run _ _ _ _ _ Hthis Hopts Hdel),
      (search_run _ _ _ _ _ Hthis Hopts Hdel).
    simpl. rewrite !last_snoc. simpl.
    split; [intros _; split; eauto|].
    split; [|split; [|split]].
    + intros Hno Hinh. rewrite (engine_of_absent _ _ _ _ Hno Hinh).
      split; intros p _; reflexivity.
    + intros e He Hne. rewrite (engine_of_own _ _ _ _ _ He).
      destruct e as [|c e]; [congruence|]. split; intros p _; reflexivity.
    + intros v Hv Ht. rewrite (engine_of_own _ _ _ _ _ Hv).
      unfold or_else. rewrite Ht. split; intros p _; reflexivity.
    + intros v Hv Ht. rewrite (engine_of_own _ _ _ _ _ Hv).
      unfold or_else. rewrite Ht. split; intros p _; reflexivity.
  - rewrite (complete_fixed _ _ _ _ Hopts Hdel), (search_fixed _ _ _ _ Hopts Hdel).
    simpl. split; [discriminate|].
    repeat split; intros; discriminate.
Qed.

Lemma C6_default_engine_witness :
  last_url (complete 0 1 (sample_state [("prompt", VString "Hello")]))
  = Some "https://api.openai.com/v1/engines/davinci/completions".
Proof.
  apply (proj1 (proj1 (proj2 (C6_default_engine prim _
                  (sample_state [("prompt", VString "Hello")]) 0 1
                  sample_client [("prompt", VString "Hello")] eq_refl eq_refl))
                  eq_refl eq_refl) (PAxios 0)).
  reflexivity.
Defined.

(** C6, as stated, fails: an engine that the caller supplies is not always
    the one used, for the empty string gives way to the default. *)
Lemma C6_empty_engine_replaced :
  ~ (forall (s : state prim) (this opts : loc) (self o : obj prim) (e : string),
       heap s !! this = Some self ->
       heap s !! opts = Some o ->
       Obj.lookup "engine" o = Some (VString e) ->
       last_url (complete this opts s) = Some (config.completionURL (VString e))).
Proof.
  intros Hall.
  specialize (Hall (sample_state [("engine", VString "")]) 0 1
                sample_client [("engine", VString "")] "" eq_refl eq_refl eq_refl).
  vm_compute in Hall. discriminate.
Qed.

(** ** The bag of the caller *)

(** C8, as amended.  When the engine can be deleted from the bag (it is
    not there, or it is configurable), [complete] and [search] leave the
    bag of the caller without its [engine] key and with every other
    property as it was, in the same order; no other object of the heap
    changes, and the dispatcher changes none at all.  When it cannot, as in
    a frozen or sealed bag that has an engine, they throw a [TypeError]
    with nothing sent and nothing changed. *)
Theorem C8_engine_key_removed :
  forall other (J : JsOther other) (s : state other) (this opts : loc)
         (o : obj other),
    heap s !! opts = Some o ->
    (can_delete s opts "engine" o = true ->
     heap (snd (complete this opts s)) = <[opts := Obj.delete "engine" o]> (heap s)
     /\ heap (snd (search this opts s))
        = <[opts := Obj.delete "engine" o]> (heap s))
    /\ (can_delete s opts "engine" o = false ->
        complete this opts s = (Throw TypeError, s)
        /\ search this opts s = (Throw TypeError, s))
    /\ <[opts := Obj.delete "engine" o]> (heap s) !! opts
       = Some (Obj.delete "engine" o)
    /\ Obj.lookup "engine" (Obj.delete "engine" o) = None
    /\ (forall k, k <> "engine" ->
                  Obj.lookup k (Obj.delete "engine" o) = Obj.lookup k o)
    /\ Obj.keys (Obj.delete "engine" o)
       = List.filter (fun k => negb (String.eqb k "engine")) (Obj.keys o)
    /\ (forall l, l <> opts ->
                  <[opts := Obj.delete "engine" o]> (heap s) !! l = heap s !! l)
    /\ (forall u m arg (s' : state other),
          heap (snd (_send_request this u m arg s')) = heap s').
Proof.
  intros other J s this opts o Hopts.
  split; [|split; [|split; [|split; [|split; [|split; [|split]]]]]].
  - intros Hdel. split; [now apply complete_heap | now apply search_heap].
  - intros Hdel.
    split; [apply (complete_fixed this opts s o) | apply (search_fixed this opts s o)];
      assumption.
  - now apply bag_after_delete.
  - apply lookup_delete_eq.
  - intros k Hk. now apply lookup_delete_ne.
  - apply delete_keys.
  - intros l Hl. now apply list_lookup_insert_ne.
  - intros u m arg s'. apply send_request_heap.
Qed.

Lemma C8_engine_key_removed_witness :
  heap (snd (complete 0 1
               (sample_state [("engine", VString "curie"); ("n", VString "3")])))
  = [sample_client; [("n", VString "3")]].
Proof.
  apply (proj1 (proj1 (C8_engine_key_removed prim _
                  (sample_state [("engine", VString "curie"); ("n", VString "3")])
                  0 1 [("engine", VString "curie"); ("n", VString "3")] eq_refl)
                  eq_refl)).
Defined.

(** C8, as stated, fails: a frozen bag keeps its engine, for deleting it is
    a [TypeError] in the strict code of the class. *)
Lemma C8_frozen_bag_keeps_engine :
  ~ (forall (s : state prim) (this opts : loc) (self o : obj prim),
       heap s !! this = Some self ->
       heap s !! opts = Some o ->
       exists o',
         heap (snd (complete this opts s)) !! opts = Some o'
         /\ Obj.lookup "engine" o' = None).
Proof.
  intros Hall.
  destruct (Hall (frozen_state [("engine", VString "curie")]) 0 1
              sample_client [("engine", VString "curie")] eq_refl eq_refl)
    as (o' & Ho' & Hno).
  vm_compute in Ho'. injection Ho' as <-. discriminate.
Qed.

(** C10.  For a bag whose engine is in the allow-list, [embeddings] leaves
    the heap, and so the bag, as it was; the request goes to the URL with
    the engine in its path, and its body is the transformed bag, which has
    the engine under the key [engine]. *)
Theorem C10_embeddings_keeps_engine :
  forall other (J : JsOther other) (s : state other) (this opts : loc)
         (self o : obj other) (e : string),
    heap s !! this = Some self ->
    heap s !! opts = Some o ->
    Obj.lookup "engine" o = Some (VString e) ->
    In e availableEngineNames ->
    embeddings this opts s
    = (Ret (PAxios (length (net s))),
       State (heap s)
         (net s ++
          [Request ("https://api.openai.com/v1/engines/" +:+ e +:+ "/embeddings")
             (bearer_headers (Obj.get "_api_key" self))
             (BodyObject (transform o)) "post"])
         (shapes s))
    /\ Obj.lookup "engine" (transform o) = Some (VString e)
    /\ heap (snd (embeddings this opts s)) !! opts = Some o.
Proof.
  intros other J s this opts self o e Hthis Hopts He Hin.
  pose proof (engine_of_own this opts s o _ He) as Hget.
  assert (array_includes availableEngineNames (engine_of this opts s o) = true)
    as Hyes by (rewrite Hget; now apply array_includes_In).
  pose proof (transform_engine o _ He) as Hd.
  rewrite (embeddings_run_accept _ _ _ _ _ Hthis Hopts Hyes), Hget.
  destruct (transform o) as [|p d] eqn:E; [discriminate|].
  simpl. auto.
Qed.

Lemma C10_embeddings_keeps_engine_witness :
  Obj.lookup "engine"
    (transform [("input", VString "hi");
                ("engine", @VString prim "text-similarity-ada-001")])
  = Some (VString "text-similarity-ada-001").
Proof.
  apply (proj1 (proj2
    (C10_embeddings_keeps_engine prim _
       (sample_state [("input", VString "hi");
                      ("engine", VString "text-similarity-ada-001")]) 0 1
       sample_client
       [("input", VString "hi"); ("engine", VString "text-similarity-ada-001")]
       "text-similarity-ada-001" eq_refl eq_refl eq_refl
       (or_introl eq_refl)))).
Defined.

(** ** The stub *)

(** C9.  [encode], whatever its arguments, leaves the state as it is, so it
    sends nothing, and returns a promise resolved with 2047 empty
    strings. *)
Theorem C9_encode_stub :
  forall other (J : JsOther other) (this : loc) (args : list (value other))
         (s : state other),
    exists a,
      encode this args s = (Ret (PResolved a), s)
      /\ length a = 2047
      /\ Forall (fun x => x = EmptyString) a
      /\ net (snd (encode this args s)) = net s.
Proof.
  intros other J this args s. exists (repeat EmptyString 2047).
  split; [reflexivity|]. split; [apply List.repeat_length|].
  split; [|reflexivity].
  apply Forall_forall. intros x Hx. apply list_elem_of_In in Hx.
  now apply repeat_spec in Hx.
Qed.

(** ** The key of the client *)

Section KeyInvariant.
Context {other : Type} `{JsOther other}.
Variable this : loc.
Variable key : value other.

(** Nothing was sent: the log is as it was. *)
Local Ltac nothing_sent :=
  exists []; split; [now rewrite app_nil_r | constructor].

Lemma client_key_self s :
  client_key this s = Some key ->
  exists self, heap s !! this = Some self /\ Obj.get "_api_key" self = key.
Proof.
  unfold client_key. destruct (heap s !! this) as [self|]; simpl; [|discriminate].
  intros [= <-]. eauto.
Qed.

Lemma dispatcher_step u m arg s :
  client_key this s = Some key ->
  client_key this (snd (_send_request this u m arg s)) = Some key
  /\ exists new,
       net (snd (_send_request this u m arg s)) = net s ++ new /\ stamped key new.
Proof.
  intros Hkey. split.
  - unfold client_key. now rewrite send_request_heap.
  - destruct (client_key_self _ Hkey) as (self & Hself & <-).
    now apply send_request_net.
Qed.

Lemma delete_step (f : loc -> loc -> M other promise) l s :
  (forall self o, heap s !! this = Some self -> heap s !! l = Some o ->
     can_delete s l "engine" o = true ->
     exists u,
       f this l s
       = (Ret (PAxios (length (net s))),
          State (<[l := Obj.delete "engine" o]> (heap s))
            (net s ++ [Request u (bearer_headers (Obj.get "_api_key" self))
                         (body_of (transform (Obj.delete "engine" o))) "post"])
            (shapes s))) ->
  (forall o, heap s !! l = Some o -> can_delete s l "engine" o = false ->
     f this l s = (Throw TypeError, s)) ->
  (heap s !! l = None -> f this l s = (Throw TypeError, s)) ->
  client_key this s = Some key ->
  client_key this (snd (f this l s)) = Some key
  /\ exists new, net (snd (f this l s)) = net s ++ new /\ stamped key new.
Proof.
  intros Hrun Hfixed Hnone Hkey.
  destruct (client_key_self _ Hkey) as (self & Hself & Hk).
  destruct (heap s !! l) as [o|] eqn:Hl.
  - destruct (can_delete s l "engine" o) eqn:Hdel.
    + destruct (Hrun self o Hself eq_refl Hdel) as (u & ->). simpl.
      destruct (client_after_delete _ _ _ _ _ Hself Hl) as (self' & Hs' & Hk').
      split.
      * unfold client_key. simpl. rewrite Hs'. simpl. congruence.
      * eexists. split; [reflexivity|]. rewrite Hk. repeat constructor.
    + rewrite (Hfixed o eq_refl Hdel). simpl. split; [assumption|].
      nothing_sent.
  - rewrite (Hnone eq_refl). simpl. split; [assumption|].
    nothing_sent.
Qed.

(** One call keeps the key and stamps what it sends with it. *)
Lemma invoke_step c s :
  client_key this s = Some key ->
  client_key this (snd (invoke this c s)) = Some key
  /\ exists new, net (snd (invoke this c s)) = net s ++ new /\ stamped key new.
Proof.
  intros Hkey. destruct c as [l|args|l|arg|arg| |name|l]; simpl.
  - apply delete_step; [| | |assumption].
    + intros self o Hs Hl Hdel. eexists. now apply complete_run.
    + intros o. apply complete_fixed.
    + apply complete_dangling.
  - split; [assumption|]. nothing_sent.
  - apply delete_step; [| | |assumption].
    + intros self o Hs Hl Hdel. eexists. now apply search_run.
    + intros o. apply search_fixed.
    + apply search_dangling.
  - now apply dispatcher_step.
  - now apply dispatcher_step.
  - now apply dispatcher_step.
  - now apply dispatcher_step.
  - destruct (client_key_self _ Hkey) as (self & Hself & Hk).
    destruct (heap s !! l) as [o|] eqn:Hl.
    + destruct (array_includes availableEngineNames (engine_of this l s o)) eqn:E.
      * rewrite (embeddings_run_accept _ _ _ _ _ Hself Hl E). simpl.
        split; [assumption|].
        eexists. split; [reflexivity|]. rewrite Hk. repeat constructor.
      * rewrite (embeddings_run_reject _ _ _ _ Hl E). simpl.
        split; [assumption|].
        nothing_sent.
    + rewrite (embeddings_dangling _ _ _ Hl). simpl. split; [assumption|].
      nothing_sent.
Qed.

(** So does any sequence of calls. *)
Lemma run_steps cs s :
  client_key this s = Some key ->
  client_key this (run this cs s) = Some key
  /\ exists new, net (run this cs s) = net s ++ new /\ stamped key new.
Proof.
  revert s. induction cs as [|c r IH]; intros s Hkey; simpl.
  - split; [assumption|]. nothing_sent.
  - destruct (invoke_step c s Hkey) as (Hkey' & new & Hnet & Hnew).
    destruct (IH _ Hkey') as (Hkey'' & new' & Hnet' & Hnew').
    split; [assumption|]. exists (new ++ new'). split.
    + now rewrite Hnet', Hnet, app_assoc.
    + now apply Forall_app.
Qed.

End KeyInvariant.

(** C7.  A client is built with a key; whatever calls are then made on it,
    every request they issue carries exactly the two headers
    [Authorization: Bearer <key>] and [Content-Type: application/json], and
    the client still holds the key at the end. *)
Theorem C7_headers_and_key :
  forall other (J : JsOther other) (key : string) (s0 : state other)
         (cs : list (call other)),
    exists this s1 new,
      constructor (VString key) s0 = (Ret this, s1)
      /\ net (run this cs s1) = net s0 ++ new
      /\ Forall (fun r => headers r
                          = [("Authorization", "Bearer " +:+ key);
                             ("Content-Type", "application/json")]) new
      /\ client_key this (run this cs s1) = Some (VString key).
Proof.
  intros other J key s0 cs.
  set (s1 := snd (constructor (@VString other key) s0)).
  assert (client_key (length (heap s0)) s1 = Some (VString key)) as Hkey.
  { unfold client_key, s1. simpl. now rewrite list_lookup_middle. }
  destruct (run_steps (length (heap s0)) (VString key) cs s1 Hkey)
    as (Hend & new & Hnet & Hnew).
  exists (length (heap s0)), s1, new. auto.
Qed.

(** * Further properties of the code *)

(** ** The rewriting of a key *)

Section RewritingMore.

Lemma plain_key_app a b :
  Spec.plain_key (a +:+ b) = Spec.plain_key a && Spec.plain_key b.
Proof.
  induction a as [|c a IH]; simpl; [reflexivity|].
  rewrite IH. now rewrite andb_assoc.
Qed.

Lemma rewrite_char_plain c : Spec.plain_key (Spec.rewrite_char c) = true.
Proof. destruct c as [[] [] [] [] [] [] [] []]; vm_compute; reflexivity. Qed.

Lemma rewrite_key_plain key : Spec.plain_key (Spec.rewrite_key key) = true.
Proof.
  induction key as [|c r IH]; simpl; [reflexivity|].
  now rewrite plain_key_app, rewrite_char_plain, IH.
Qed.

Lemma string_length_app a b :
  String.length (a +:+ b) = String.length a + String.length b.
Proof. induction a as [|c a IH]; simpl; [reflexivity | now rewrite IH]. Qed.

Lemma count_char_app a x y :
  count_char a (x +:+ y) = count_char a x + count_char a y.
Proof. induction x as [|c x IH]; simpl; [reflexivity | rewrite IH; lia]. Qed.

Lemma rewrite_char_underscores c :
  count_char "_" (Spec.rewrite_char c)
  = (if Ascii.eqb c "_" then 1 else 0) + (if Ascii.eqb c " " then 1 else 0)
    + (if is_AZ c then 1 else 0).
Proof. destruct c as [[] [] [] [] [] [] [] []]; vm_compute; reflexivity. Qed.

Lemma rewrite_char_length c :
  String.length (Spec.rewrite_char c) = S (if is_AZ c then 1 else 0).
Proof.
  unfold Spec.rewrite_char.
  destruct (is_AZ c); [reflexivity|]. now destruct (Ascii.eqb c " ").
Qed.

End RewritingMore.

(** X1.  What the transform returns for a key has no upper-case letter and
    no space, so the transform leaves it as it is: rewriting twice is
    rewriting once. *)
Theorem X1_rewrite_idempotent : forall key,
  Spec.plain_key (camelToUnderscore key) = true
  /\ Spec.has_upper (camelToUnderscore key) = false
  /\ camelToUnderscore (camelToUnderscore key) = camelToUnderscore key.
Proof.
  intros key.
  assert (Spec.plain_key (camelToUnderscore key) = true) as Hp
    by (rewrite camelToUnderscore_rewrite; apply rewrite_key_plain).
  split; [assumption|]. split.
  - revert Hp. generalize (camelToUnderscore key) as k.
    induction k as [|c r IH]; simpl; [reflexivity|].
    intros Hp. apply andb_prop in Hp as [Hp Hr].
    apply andb_prop in Hp as [Hu _]. apply negb_true_iff in Hu.
    rewrite Hu. now apply IH.
  - rewrite (camelToUnderscore_rewrite (camelToUnderscore key)).
    now apply rewrite_plain.
Qed.

(** X2.  The transform adds one underscore for each letter A-Z and turns
    each space into one, and that is all it does to the underscores; it
    never makes a key shorter.  (Lower-casing adds no underscore and drops
    no character, also where it gives more than one code unit for one.) *)
Theorem X2_rewrite_length : forall key,
  count_char "_" (camelToUnderscore key)
  = count_char "_" key + count_char " " key + count_AZ key
  /\ String.length key + count_AZ key <= String.length (camelToUnderscore key).
Proof.
  intros key. rewrite camelToUnderscore_rewrite. split.
  - induction key as [|c r IH]; simpl; [reflexivity|].
    rewrite count_char_app, IH, rewrite_char_underscores. lia.
  - induction key as [|c r IH]; simpl; [reflexivity|].
    rewrite string_length_app, rewrite_char_length.
    destruct (is_AZ c); simpl; lia.
Qed.

(** ** The transform of a bag *)

Section TransformMore.
Context {other : Type} `{JsOther other}.
Implicit Types (o opts : obj other) (data : bool * obj other) (k t : string)
  (v : value other).

Lemma copy_keys_app ks1 ks2 opts data :
  copy_keys (ks1 ++ ks2) opts data = copy_keys ks2 opts (copy_keys ks1 opts data).
Proof. revert data. induction ks1 as [|k r IH]; intros data; simpl; auto. Qed.

(** Keys that are rewritten to something else leave a target key alone. *)
Lemma copy_keys_lookup_other t ks opts data :
  (forall k, k ∈ ks -> camelToUnderscore k <> t) ->
  Obj.lookup t (snd (copy_keys ks opts data)) = Obj.lookup t (snd data).
Proof.
  revert data. induction ks as [|key r IH]; intros data Hno; simpl; [reflexivity|].
  rewrite IH by (intros k Hk; apply Hno; now right).
  apply lookup_assign_ne. intros E. apply (Hno key); [now left | auto].
Qed.

Lemma keys_app o1 o2 : Obj.keys (o1 ++ o2) = Obj.keys o1 ++ Obj.keys o2.
Proof. unfold Obj.keys. apply map_app. Qed.

Lemma lookup_app_absent k o1 o2 :
  k ∉ Obj.keys o1 -> Obj.lookup k (o1 ++ o2) = Obj.lookup k o2.
Proof.
  induction o1 as [|[k' v'] r IH]; simpl; [reflexivity|].
  intros Hnin. apply not_elem_of_cons in Hnin as [Hne Hnin].
  rewrite (proj2 (String.eqb_neq k' k)) by congruence. auto.
Qed.

Lemma get_middle k v o1 o2 :
  k ∉ Obj.keys o1 -> Obj.get k (o1 ++ (k, v) :: o2) = v.
Proof.
  intros Hnin. unfold Obj.get. rewrite lookup_app_absent by assumption.
  simpl. now rewrite String.eqb_refl.
Qed.

(** A write makes its entry from the key and the value written. *)
Lemma assign_origin b k v o t w :
  Obj.lookup t (snd (Obj.assign b k v o)) = Some w ->
  Obj.lookup t o = Some w \/ (t = k /\ w = v).
Proof.
  destruct (assign_cases b k v o) as [(_ & _ & ->)| ->]; simpl; [auto|].
  destruct (decide (t = k)) as [->|Hne].
  - rewrite lookup_set_eq. intros [= <-]. auto.
  - rewrite lookup_set_ne by assumption. auto.
Qed.

(** Every entry written by the loop has the value of a key of the bag. *)
Lemma copy_keys_origin t v ks opts data :
  Obj.lookup t (snd (copy_keys ks opts data)) = Some v ->
  Obj.lookup t (snd data) = Some v
  \/ exists k, k ∈ ks /\ camelToUnderscore k = t /\ v = Obj.get k opts.
Proof.
  revert data. induction ks as [|key r IH]; intros data; simpl; [auto|].
  intros Hv. apply IH in Hv as [Hv|(k & Hin & Hk & Hval)].
  - apply assign_origin in Hv as [Hv|[-> ->]]; [auto|].
    right. exists key. split; [now left | auto].
  - right. exists k. split; [now right | auto].
Qed.

Lemma assign_length b k v o :
  length (snd (Obj.assign b k v o)) <= S (length o).
Proof.
  destruct (assign_cases b k v o) as [(_ & _ & ->)| ->]; simpl; [lia|].
  unfold Obj.set. destruct (Obj.lookup k o).
  - assert (length (Obj.keys (Obj.overwrite k v o)) = length (Obj.keys o)) as E
      by now rewrite keys_overwrite.
    unfold Obj.keys in E. rewrite !length_map in E. lia.
  - assert (length (Obj.keys (Obj.create k v o)) = S (length (Obj.keys o))) as E
      by now rewrite keys_create.
    unfold Obj.keys in E. rewrite !length_map in E. lia.
Qed.

Lemma copy_keys_length ks opts data :
  length (snd (copy_keys ks opts data)) <= length ks + length (snd data).
Proof.
  revert data. induction ks as [|key r IH]; intros data; simpl; [lia|].
  etransitivity; [apply IH|].
  pose proof (assign_length (fst data) (camelToUnderscore key)
                (Obj.get key opts) (snd data)). lia.
Qed.

Lemma rename_snoc o k v :
  rename (o ++ [(k, v)]) = rename o ++ [(camelToUnderscore k, v)].
Proof. unfold rename. now rewrite map_app. Qed.

Lemma keys_rename o : Obj.keys (rename o) = map camelToUnderscore (Obj.keys o).
Proof.
  unfold rename, Obj.keys. rewrite !map_map. reflexivity.
Qed.

(** The loop on the rest of a bag whose rewritten keys are distinct, are
    not [__proto__] and are not array indices. *)
Lemma copy_keys_rename b o1 o2 :
  NoDup (map camelToUnderscore (Obj.keys (o1 ++ o2))) ->
  Forall (fun k => camelToUnderscore k <> "__proto__"
                   /\ Obj.array_index (camelToUnderscore k) = None)
    (Obj.keys o2) ->
  snd (copy_keys (Obj.keys o2) (o1 ++ o2) (b, rename o1)) = rename (o1 ++ o2).
Proof.
  revert o1. induction o2 as [|[k v] r IH]; intros o1 Hnd Hall.
  - simpl. now rewrite app_nil_r.
  - simpl. apply Forall_cons in Hall as [[Hp Hidx] Hall].
    cbn [fst] in Hp, Hidx.
    assert (camelToUnderscore k ∉ map camelToUnderscore (Obj.keys o1)) as Hfresh.
    { rewrite keys_app, map_app in Hnd. simpl in Hnd.
      apply NoDup_app in Hnd as (_ & Hdisj & _).
      intros Hin. apply (Hdisj _ Hin). now left. }
    assert (k ∉ Obj.keys o1) as Hk.
    { intros Hin. apply Hfresh. apply list_elem_of_In, in_map, list_elem_of_In, Hin. }
    rewrite get_middle by assumption.
    assert (Obj.assign b (camelToUnderscore k) v (rename o1)
            = (b, rename (o1 ++ [(k, v)]))) as ->.
    { rewrite assign_not_proto by assumption. f_equal.
      unfold Obj.set.
      destruct (Obj.lookup (camelToUnderscore k) (rename o1)) eqn:E.
      - exfalso. apply Hfresh. rewrite <- keys_rename.
        apply elem_of_keys. rewrite E. eauto.
      - unfold Obj.create. rewrite Hidx. now rewrite rename_snoc. }
    replace (o1 ++ (k, v) :: r) with ((o1 ++ [(k, v)]) ++ r)
      by now rewrite <- app_assoc.
    apply IH; [|assumption].
    now rewrite <- app_assoc.
Qed.

End TransformMore.

(** X3.  Where several keys of a bag are rewritten to the same key, the
    one enumerated last gives the value: an entry [(k, v)] after which no
    key is rewritten to the same key as [k] ends up in the new mapping
    under the rewritten key. *)
Theorem X3_last_write_wins :
  forall other (J : JsOther other) (o1 o2 : obj other) (k : string)
    (v : value other),
    k ∉ Obj.keys o1 ->
    camelToUnderscore k <> "__proto__" ->
    (forall k', k' ∈ Obj.keys o2 -> camelToUnderscore k' <> camelToUnderscore k) ->
    Obj.lookup (camelToUnderscore k) (transform (o1 ++ (k, v) :: o2)) = Some v.
Proof.
  intros other J o1 o2 k v Hk Hp Hlast. unfold transform.
  rewrite keys_app. simpl.
  change (k :: Obj.keys o2) with ([k] ++ Obj.keys o2).
  rewrite !copy_keys_app.
  rewrite copy_keys_lookup_other by assumption.
  simpl. rewrite lookup_assign_eq by assumption.
  now rewrite get_middle.
Qed.

Lemma X3_last_write_wins_witness :
  Obj.lookup "max_tokens"
    (transform [("maxTokens", @VString prim "5"); ("max_tokens", VString "7");
                ("n", VString "1")])
  = Some (VString "7").
Proof.
  apply (X3_last_write_wins prim _ [("maxTokens", VString "5")] [("n", VString "1")]
           "max_tokens" (VString "7")).
  - intros Hin. apply list_elem_of_In in Hin. simpl in Hin.
    destruct Hin as [E|[]]. discriminate.
  - discriminate.
  - intros k' Hin. apply list_elem_of_In in Hin. simpl in Hin.
    destruct Hin as [<-|[]]. discriminate.
Defined.

(** X4.  For a bag whose rewritten keys are pairwise distinct, none of them
    [__proto__] or an array index, the new mapping is the bag with each key
    rewritten: same entries, same order, same values. *)
Theorem X4_transform_renames :
  forall other (J : JsOther other) (opts : obj other),
    NoDup (map camelToUnderscore (Obj.keys opts)) ->
    Forall (fun k => camelToUnderscore k <> "__proto__"
                     /\ Obj.array_index (camelToUnderscore k) = None)
      (Obj.keys opts) ->
    transform opts = rename opts.
Proof.
  intros other J opts Hnd Hall.
  apply (copy_keys_rename true [] opts); assumption.
Qed.

Lemma X4_transform_renames_witness :
  transform [("prompt", @VString prim "Hello"); ("bestOf", VString "2")]
  = [("prompt", VString "Hello"); ("best_of", VString "2")].
Proof.
  apply (X4_transform_renames prim _
           [("prompt", VString "Hello"); ("bestOf", VString "2")]).
  - apply (bool_decide_unpack _). vm_compute. exact I.
  - repeat constructor; discriminate.
Defined.

(** X5.  The transform makes up nothing: every entry of the new mapping has
    the value of a key of the bag that is rewritten to its key, and the new
    mapping has at most as many entries as the bag. *)
Theorem X5_transform_values_from_bag :
  forall other (J : JsOther other) (opts : obj other),
    (forall t v, Obj.lookup t (transform opts) = Some v ->
       exists k, k ∈ Obj.keys opts /\ camelToUnderscore k = t
                 /\ Obj.lookup k opts = Some v)
    /\ length (transform opts) <= length opts.
Proof.
  intros other J opts. split.
  - intros t v Hv. apply copy_keys_origin in Hv as [Hv|(k & Hin & Hk & Hval)].
    + discriminate.
    + exists k. split; [assumption|]. split; [assumption|].
      apply elem_of_keys in Hin as [w Hw]. unfold Obj.get in Hval.
      rewrite Hw in Hval. congruence.
  - unfold transform.
    pose proof (copy_keys_length (Obj.keys opts) opts (true, [])) as Hlen.
    assert (length (Obj.keys opts) = length opts) as E
      by (unfold Obj.keys; apply length_map).
    rewrite E in Hlen. simpl in Hlen. lia.
Qed.

Lemma X5_transform_values_from_bag_witness :
  exists k, k ∈ Obj.keys [("topP", @VString prim "1")]
            /\ camelToUnderscore k = "top_p"
            /\ Obj.lookup k [("topP", @VString prim "1")] = Some (VString "1").
Proof.
  apply (proj1 (X5_transform_values_from_bag prim _ [("topP", VString "1")])
           "top_p" (VString "1")).
  reflexivity.
Defined.

(** ** The calls that take the engine out of the bag *)

Section EngineOut.
Context {other : Type} `{JsOther other}.
Implicit Types (s : state other) (o self : obj other) (this opts : loc)
  (data : bool * obj other).

Lemma transform_without_engine o :
  Obj.lookup "engine" (transform (Obj.delete "engine" o)) = None.
Proof.
  destruct (Obj.lookup "engine" (transform (Obj.delete "engine" o))) eqn:E;
    [exfalso | reflexivity].
  assert ("engine" ∈ Obj.keys (transform (Obj.delete "engine" o))) as Hin
    by (apply elem_of_keys; rewrite E; eauto).
  apply transform_keys_from in Hin as (k & Hk & Hrw).
  apply camelToUnderscore_engine in Hrw. subst k.
  apply elem_of_keys in Hk as [w Hw].
  rewrite lookup_delete_eq in Hw. discriminate.
Qed.

(** The loop on a bag without its [engine] writes, under every other key,
    what it writes on the whole bag. *)
Lemma copy_keys_delete_engine t ks o data data' :
  t <> "engine" ->
  fst data = fst data' ->
  (forall t', t' <> "engine" ->
     Obj.lookup t' (snd data) = Obj.lookup t' (snd data')) ->
  Obj.lookup t
    (snd (copy_keys (List.filter (fun k => negb (String.eqb k "engine")) ks)
            (Obj.delete "engine" o) data))
  = Obj.lookup t (snd (copy_keys ks o data')).
Proof.
  intros Ht. revert data data'.
  induction ks as [|key r IH]; intros data data' Hflag Hsame; simpl; [auto|].
  destruct (String.eqb key "engine") eqn:E; simpl.
  - apply String.eqb_eq in E. subst key.
    change (camelToUnderscore "engine") with "engine".
    rewrite (assign_not_proto (fst data')) by discriminate.
    apply IH; [exact Hflag|].
    intros t' Ht'. rewrite Hsame by assumption.
    symmetry. simpl. now apply lookup_set_ne.
  - apply String.eqb_neq in E. rewrite get_delete_ne by assumption.
    rewrite Hflag. apply IH.
    + apply assign_setter.
    + intros t' Ht'.
      unfold Obj.assign.
      destruct (String.eqb (camelToUnderscore key) "__proto__" && fst data');
        simpl; [now apply Hsame|].
      destruct (decide (t' = camelToUnderscore key)) as [->|Hne].
      * now rewrite !lookup_set_eq.
      * rewrite !lookup_set_ne by assumption. now apply Hsame.
Qed.

Lemma transform_delete_engine t o :
  t <> "engine" ->
  Obj.lookup t (transform (Obj.delete "engine" o)) = Obj.lookup t (transform o).
Proof.
  intros Ht. unfold transform. rewrite delete_keys.
  now apply copy_keys_delete_engine.
Qed.

Lemma delete_delete o :
  Obj.delete "engine" (Obj.delete "engine" o) = Obj.delete "engine" o.
Proof. apply delete_absent, lookup_delete_eq. Qed.

(** A property that is not there can be deleted from every object. *)
Lemma can_delete_absent s opts k o :
  Obj.lookup k o = None -> can_delete s opts k o = true.
Proof. unfold can_delete. now intros ->. Qed.

(** A call of [complete] or [search] on a bag that has no [engine] and
    inherits none. *)
Lemma complete_without_engine this opts s self o :
  heap s !! this = Some self ->
  heap s !! opts = Some o ->
  Obj.lookup "engine" o = None ->
  inherits_methods this opts s = false ->
  last_url (complete this opts s)
  = Some "https://api.openai.com/v1/engines/davinci/completions"
  /\ heap (snd (complete this opts s)) = heap s.
Proof.
  intros Hthis Hopts Hno Hinh. unfold last_url.
  rewrite (complete_run _ _ _ _ _ Hthis Hopts (can_delete_absent _ _ _ _ Hno)).
  simpl. rewrite last_snoc. simpl.
  rewrite (engine_of_absent _ _ _ _ Hno Hinh). split; [reflexivity|].
  rewrite delete_absent by assumption. now apply list_insert_id.
Qed.

Lemma search_without_engine this opts s self o :
  heap s !! this = Some self ->
  heap s !! opts = Some o ->
  Obj.lookup "engine" o = None ->
  inherits_methods this opts s = false ->
  last_url (search this opts s)
  = Some "https://api.openai.com/v1/engines/davinci/search"
  /\ heap (snd (search this opts s)) = heap s.
Proof.
  intros Hthis Hopts Hno Hinh. unfold last_url.
  rewrite (search_run _ _ _ _ _ Hthis Hopts (can_delete_absent _ _ _ _ Hno)).
  simpl. rewrite last_snoc. simpl.
  rewrite (engine_of_absent _ _ _ _ Hno Hinh). split; [reflexivity|].
  rewrite delete_absent by assumption. now apply list_insert_id.
Qed.

End EngineOut.

(** X6.  The engine is never in the body of a request of [complete] or
    [search].  Where the bag's [engine] can be deleted, the body is the
    transform of the bag without its [engine]; where it cannot (the bag
    has an [engine] that is fixed, as in a frozen or sealed object), the
    call sends no request.  The transform of the bag without its [engine]
    has no key [engine] and, under every other key, what the transform of
    the whole bag has. *)
Theorem X6_engine_not_in_body :
  forall other (J : JsOther other) (s : state other) (this opts : loc)
         (self o : obj other),
    heap s !! this = Some self ->
    heap s !! opts = Some o ->
    (can_delete s opts "engine" o = true ->
       last_body (complete this opts s)
       = Some (body_of (transform (Obj.delete "engine" o)))
       /\ last_body (search this opts s)
          = Some (body_of (transform (Obj.delete "engine" o))))
    /\ (can_delete s opts "engine" o = false ->
          net (snd (complete this opts s)) = net s
          /\ net (snd (search this opts s)) = net s)
    /\ Obj.lookup "engine" (transform (Obj.delete "engine" o)) = None
    /\ (forall t, t <> "engine" ->
          Obj.lookup t (transform (Obj.delete "engine" o))
          = Obj.lookup t (transform o)).
Proof.
  intros other J s this opts self o Hthis Hopts. repeat split.
  - unfold last_body. rewrite (complete_run _ _ _ _ _ Hthis Hopts H).
    simpl. now rewrite last_snoc.
  - unfold last_body. rewrite (search_run _ _ _ _ _ Hthis Hopts H).
    simpl. now rewrite last_snoc.
  - now rewrite (complete_fixed _ _ _ _ Hopts H).
  - now rewrite (search_fixed _ _ _ _ Hopts H).
  - apply transform_without_engine.
  - intros t Ht. now apply transform_delete_engine.
Qed.

Lemma X6_engine_not_in_body_witness :
  last_body (complete 0 1
               (sample_state [("engine", VString "curie"); ("topP", VString "1")]))
  = Some (BodyObject [("top_p", VString "1")]).
Proof.
  pose proof (proj1 (proj1 (X6_engine_not_in_body prim _
                  (sample_state [("engine", VString "curie"); ("topP", VString "1")])
                  0 1 sample_client
                  [("engine", VString "curie"); ("topP", VString "1")]
                  eq_refl eq_refl) eq_refl)) as P.
  vm_compute in P. vm_compute. exact P.
Defined.

(** X7.  A bag serves its engine once.  After a call of [complete] or
    [search] that took the [engine] out of a bag which inherits no
    [engine] (a bag that is neither the client nor an instance of the
    class), every further call of either on the same bag goes to the
    engine ["davinci"], whatever engine the bag named, and changes the
    heap no more. *)
Theorem X7_bag_reused :
  forall other (J : JsOther other) (s : state other) (this opts : loc)
         (self o : obj other) (first : bool),
    heap s !! this = Some self ->
    heap s !! opts = Some o ->
    can_delete s opts "engine" o = true ->
    inherits_methods this opts s = false ->
    let s1 := snd ((if first then complete else search) this opts s) in
    last_url (complete this opts s1)
    = Some "https://api.openai.com/v1/engines/davinci/completions"
    /\ last_url (search this opts s1)
       = Some "https://api.openai.com/v1/engines/davinci/search"
    /\ heap (snd (complete this opts s1)) = heap s1
    /\ heap (snd (search this opts s1)) = heap s1.
Proof.
  intros other J s this opts self o first Hthis Hopts Hdel Hinh s1.
  destruct (client_after_delete _ _ _ _ _ Hthis Hopts) as (self' & Hs' & _).
  pose proof (bag_after_delete _ _ _ Hopts) as Hbag.
  assert (heap s1 = <[opts := Obj.delete "engine" o]> (heap s)
          /\ shapes s1 = shapes s) as [Hheap Hshapes].
  { unfold s1. destruct first.
    - now rewrite (complete_run _ _ _ _ _ Hthis Hopts Hdel).
    - now rewrite (search_run _ _ _ _ _ Hthis Hopts Hdel). }
  rewrite <- Hheap in Hs', Hbag.
  assert (inherits_methods this opts s1 = false) as Hinh1
    by (unfold inherits_methods in *; now rewrite Hshapes).
  destruct (complete_without_engine _ _ _ _ _ Hs' Hbag (lookup_delete_eq _ _) Hinh1)
    as [Hc1 Hc2].
  destruct (search_without_engine _ _ _ _ _ Hs' Hbag (lookup_delete_eq _ _) Hinh1)
    as [Hs1 Hs2].
  auto.
Qed.

Lemma X7_bag_reused_witness :
  last_url (complete 0 1
              (snd (complete 0 1 (sample_state [("engine", VString "curie")]))))
  = Some "https://api.openai.com/v1/engines/davinci/completions".
Proof.
  apply (proj1 (X7_bag_reused prim _
                  (sample_state [("engine", VString "curie")]) 0 1
                  sample_client [("engine", VString "curie")] true
                  eq_refl eq_refl eq_refl eq_refl)).
Defined.

(** X8.  Calls on different bags do not interfere: for two bags whose
    [engine] can be deleted, [complete] on one and [search] on the other
    send the same two requests, and leave the same heap, in whichever
    order they are made, and each request is the one the call sends when
    it is made alone. *)
Theorem X8_distinct_bags_commute :
  forall other (J : JsOther other) (s : state other) (this l1 l2 : loc)
         (self o1 o2 : obj other),
    heap s !! this = Some self ->
    heap s !! l1 = Some o1 ->
    heap s !! l2 = Some o2 ->
    can_delete s l1 "engine" o1 = true ->
    can_delete s l2 "engine" o2 = true ->
    l1 <> l2 ->
    exists r1 r2,
      net (snd (complete this l1 s)) = net s ++ [r1]
      /\ net (snd (search this l2 s)) = net s ++ [r2]
      /\ net (snd (search this l2 (snd (complete this l1 s)))) = net s ++ [r1; r2]
      /\ net (snd (complete this l1 (snd (search this l2 s)))) = net s ++ [r2; r1]
      /\ heap (snd (search this l2 (snd (complete this l1 s))))
         = heap (snd (complete this l1 (snd (search this l2 s)))).
Proof.
  intros other J s this l1 l2 self o1 o2 Hthis H1 H2 Hd1 Hd2 Hne.
  destruct (client_after_delete _ _ _ _ _ Hthis H1) as (selfA & HA & HkA).
  destruct (client_after_delete _ _ _ _ _ Hthis H2) as (selfB & HB & HkB).
  assert (<[l1 := Obj.delete "engine" o1]> (heap s) !! l2 = Some o2) as H2'
    by now rewrite list_lookup_insert_ne.
  assert (<[l2 := Obj.delete "engine" o2]> (heap s) !! l1 = Some o1) as H1'
    by now rewrite list_lookup_insert_ne by congruence.
  rewrite (complete_run _ _ _ _ _ Hthis H1 Hd1), (search_run _ _ _ _ _ Hthis H2 Hd2).
  simpl.
  erewrite search_run; [| exact HA | exact H2' | exact Hd2].
  erewrite complete_run; [| exact HB | exact H1' | exact Hd1].
  simpl. rewrite HkA, HkB, <- !app_assoc. simpl.
  unfold engine_of, inherits_methods. simpl.
  do 2 eexists. repeat split.
  apply list_insert_insert_ne. congruence.
Qed.

Lemma X8_distinct_bags_commute_witness :
  exists r1 r2,
    let s := State [sample_client; [("engine", VString "ada")];
                    [("query", @VString prim "q")]] [] sample_shapes in
    net (snd (complete 0 1 s)) = net s ++ [r1]
    /\ net (snd (search 0 2 s)) = net s ++ [r2]
    /\ net (snd (search 0 2 (snd (complete 0 1 s)))) = net s ++ [r1; r2]
    /\ net (snd (complete 0 1 (snd (search 0 2 s)))) = net s ++ [r2; r1]
    /\ heap (snd (search 0 2 (snd (complete 0 1 s))))
       = heap (snd (complete 0 1 (snd (search 0 2 s)))).
Proof.
  apply (X8_distinct_bags_commute prim _
           (State [sample_client; [("engine", VString "ada")];
                   [("query", VString "q")]] [] sample_shapes)
           0 1 2 sample_client [("engine", VString "ada")] [("query", VString "q")]
           eq_refl eq_refl eq_refl eq_refl eq_refl).
  discriminate.
Defined.

(** ** What a call can do to the heap and to the log *)

Section Frame.
Context {other : Type} `{JsOther other}.
Implicit Types (s : state other) (o self : obj other) (this opts l : loc)
  (c : call other).

(** A call leaves the heap alone or takes the [engine] out of one object. *)
Lemma invoke_heap this c s :
  heap (snd (invoke this c s)) = heap s
  \/ exists l o, heap s !! l = Some o
                 /\ heap (snd (invoke this c s))
                    = <[l := Obj.delete "engine" o]> (heap s).
Proof.
  destruct c as [l|args|l|arg|arg| |name|l]; simpl.
  - destruct (heap s !! l) as [o|] eqn:Hl.
    + destruct (can_delete s l "engine" o) eqn:Hdel.
      * right. exists l, o. split; [exact Hl | now apply complete_heap].
      * left. now rewrite (complete_fixed _ _ _ _ Hl Hdel).
    + left. now rewrite (complete_dangling _ _ _ Hl).
  - now left.
  - destruct (heap s !! l) as [o|] eqn:Hl.
    + destruct (can_delete s l "engine" o) eqn:Hdel.
      * right. exists l, o. split; [exact Hl | now apply search_heap].
      * left. now rewrite (search_fixed _ _ _ _ Hl Hdel).
    + left. now rewrite (search_dangling _ _ _ Hl).
  - left. apply send_request_heap.
  - left. apply send_request_heap.
  - left. apply send_request_heap.
  - left. apply send_request_heap.
  - left. destruct (heap s !! l) as [o|] eqn:Hl.
    + destruct (array_includes availableEngineNames (engine_of this l s o)) eqn:E.
      * destruct (heap s !! this) as [self|] eqn:Hthis.
        -- now rewrite (embeddings_run_accept _ _ _ _ _ Hthis Hl E).
        -- unfold embeddings, bind.
           rewrite (read_engine_some _ _ _ _ Hl).
           unfold _check_embeddings_engine_name. rewrite E. unfold ret.
           rewrite (read_engine_some _ _ _ _ Hl).
           apply send_request_heap.
      * now rewrite (embeddings_run_reject _ _ _ _ Hl E).
    + now rewrite (embeddings_dangling _ _ _ Hl).
Qed.

Lemma invoke_frame this c s l o :
  heap s !! l = Some o ->
  exists o', heap (snd (invoke this c s)) !! l = Some o' /\ engine_removed o o'.
Proof.
  intros Hl. destruct (invoke_heap this c s) as [->|(l0 & o0 & Hl0 & ->)].
  - exists o. split; [assumption | now left].
  - destruct (decide (l0 = l)) as [->|Hne].
    + exists (Obj.delete "engine" o). split.
      * assert (o0 = o) as -> by congruence. now apply bag_after_delete.
      * now right.
    + exists o. split; [now rewrite list_lookup_insert_ne | now left].
Qed.

Lemma invoke_heap_length this c s :
  length (heap (snd (invoke this c s))) = length (heap s).
Proof.
  destruct (invoke_heap this c s) as [->|(l0 & o0 & _ & ->)];
    [reflexivity | apply length_insert].
Qed.

Lemma engine_removed_trans o o' o'' :
  engine_removed o o' -> engine_removed o' o'' -> engine_removed o o''.
Proof.
  unfold engine_removed. intros [->| ->] [->| ->]; auto.
  right. apply delete_delete.
Qed.

Lemma engine_removed_lookup o o' k :
  engine_removed o o' -> k <> "engine" -> Obj.lookup k o' = Obj.lookup k o.
Proof. intros [->| ->] Hk; [reflexivity | now apply lookup_delete_ne]. Qed.

Lemma run_on_frame cs s l o :
  heap s !! l = Some o ->
  exists o', heap (run_on cs s) !! l = Some o' /\ engine_removed o o'.
Proof.
  revert s o. induction cs as [|[this c] r IH]; intros s o Hl; simpl.
  - exists o. split; [assumption | now left].
  - destruct (invoke_frame this c s l o Hl) as (o1 & Hl1 & Hr1).
    destruct (IH _ _ Hl1) as (o2 & Hl2 & Hr2).
    exists o2. split; [assumption|]. eapply engine_removed_trans; eassumption.
Qed.

Lemma run_on_heap_length cs s : length (heap (run_on cs s)) = length (heap s).
Proof.
  revert s. induction cs as [|[this c] r IH]; intros s; simpl; [reflexivity|].
  now rewrite IH, invoke_heap_length.
Qed.

(** The key a client holds, before and after one call of any client. *)
Lemma invoke_client_key this c s l :
  client_key l (snd (invoke this c s)) = client_key l s.
Proof.
  unfold client_key. destruct (heap s !! l) as [o|] eqn:Hl.
  - destruct (invoke_frame this c s l o Hl) as (o' & -> & Hr). simpl.
    f_equal. unfold Obj.get.
    now rewrite (engine_removed_lookup _ _ "_api_key" Hr).
  - assert (heap (snd (invoke this c s)) !! l = None) as ->; [|reflexivity].
    apply lookup_ge_None. rewrite invoke_heap_length.
    now apply lookup_ge_None.
Qed.

(** On a client that is there the dispatcher returns the promise of the
    one request it adds. *)
Lemma send_request_any this u m arg s self :
  heap s !! this = Some self ->
  exists req,
    _send_request this u m arg s
    = (Ret (PAxios (length (net s))),
       State (heap s) (net s ++ [req]) (shapes s)).
Proof.
  intros Hthis. unfold _send_request, bind, bag_or_default.
  destruct arg as [l|]; [destruct (heap s !! l)|];
    rewrite (deref_some _ _ _ Hthis); unfold axios; eauto.
Qed.

End Frame.

(** X9.  In any sequence of calls, on any clients, the heap keeps its size
    and every object in it ends up as it was or without its [engine], so
    every property other than [engine] is as it was. *)
Theorem X9_only_engine_removed :
  forall other (J : JsOther other) (cs : list (loc * call other))
         (s : state other),
    length (heap (run_on cs s)) = length (heap s)
    /\ (forall l o, heap s !! l = Some o ->
          exists o',
            heap (run_on cs s) !! l = Some o'
            /\ (o' = o \/ o' = Obj.delete "engine" o)
            /\ (forall k, k <> "engine" -> Obj.lookup k o' = Obj.lookup k o)).
Proof.
  intros other J cs s. split; [apply run_on_heap_length|].
  intros l o Hl. destruct (run_on_frame cs s l o Hl) as (o' & Hl' & Hr).
  exists o'. split; [assumption|]. split; [exact Hr|].
  intros k Hk. now apply (engine_removed_lookup o o').
Qed.

Lemma X9_only_engine_removed_witness :
  exists o',
    heap (run_on [(0, CallComplete 1); (0, CallEmbeddings 1); (0, CallSearch 1)]
            (sample_state [("engine", VString "ada"); ("n", VString "2")]))
      !! 1 = Some o'
    /\ (o' = [("engine", VString "ada"); ("n", VString "2")]
        \/ o' = Obj.delete "engine" [("engine", VString "ada"); ("n", VString "2")])
    /\ (forall k, k <> "engine" ->
          Obj.lookup k o'
          = Obj.lookup k [("engine", VString "ada"); ("n", @VString prim "2")]).
Proof.
  apply (proj2 (X9_only_engine_removed prim _
                  [(0, CallComplete 1); (0, CallEmbeddings 1); (0, CallSearch 1)]
                  (sample_state [("engine", VString "ada"); ("n", VString "2")]))
           1 [("engine", VString "ada"); ("n", VString "2")]).
  reflexivity.
Defined.

(** X10.  With several clients at work, no call changes the key that any
    client holds, and every request sent carries the key of one of the
    clients that made a call, as that client held it at the start. *)
Theorem X10_each_request_its_key :
  forall other (J : JsOther other) (cs : list (loc * call other))
         (s : state other),
    Forall (fun tc => is_Some (heap s !! fst tc)) cs ->
    (forall l, client_key l (run_on cs s) = client_key l s)
    /\ exists new,
         net (run_on cs s) = net s ++ new
         /\ Forall (fun r => exists this self,
                      this ∈ map fst cs
                      /\ heap s !! this = Some self
                      /\ headers r = bearer_headers (Obj.get "_api_key" self))
              new.
Proof.
  intros other J cs. induction cs as [|[this c] r IH]; intros s Hcs; simpl.
  - split; [reflexivity|]. exists []. split; [now rewrite app_nil_r | constructor].
  - apply Forall_cons in Hcs as [[self Hthis] Hcs]. simpl in Hthis.
    assert (Forall (fun tc => is_Some (heap (snd (invoke this c s)) !! fst tc)) r)
      as Hcs'.
    { eapply Forall_impl; [exact Hcs|]. intros [l c'] [o Hl]. simpl in *.
      destruct (invoke_frame this c s l o Hl) as (o' & -> & _). eauto. }
    destruct (IH _ Hcs') as (Hkeys & new' & Hnet' & Hnew').
    split.
    { intros l. now rewrite Hkeys, invoke_client_key. }
    assert (client_key this s = Some (Obj.get "_api_key" self)) as Hkey
      by (unfold client_key; now rewrite Hthis).
    destruct (invoke_step this _ c s Hkey) as (_ & new & Hnet & Hnew).
    exists (new ++ new'). split; [now rewrite Hnet', Hnet, app_assoc|].
    apply Forall_app. split.
    + eapply Forall_impl; [exact Hnew|]. intros req Hreq.
      exists this, self. split; [now left | auto].
    + eapply Forall_impl; [exact Hnew'|].
      intros req (this' & self' & Hin & Hself' & Hreq).
      pose proof (invoke_client_key this c s this') as Hk.
      unfold client_key in Hk. rewrite Hself' in Hk. simpl in Hk.
      destruct (heap s !! this') as [self0|] eqn:E; [|discriminate].
      simpl in Hk. exists this', self0.
      split; [now right|]. split; [exact E|]. congruence.
Qed.

Lemma X10_each_request_its_key_witness :
  client_key 0
    (run_on [(0, CallComplete 0); (1, CallAnswers (Some 0))]
       (State [sample_client; [("_api_key", VString "sk-other")]] []
          sample_shapes))
  = Some (VString "sk-test").
Proof.
  apply (proj1 (X10_each_request_its_key prim _
                  [(0, CallComplete 0); (1, CallAnswers (Some 0))]
                  (State [sample_client; [("_api_key", VString "sk-other")]] []
                     sample_shapes)
                  ltac:(repeat constructor; simpl; eauto)) 0).
Defined.

(** The three ways in which a call ends. *)
Lemma invoke_outcome :
  forall other (J : JsOther other) (s : state other) (this : loc)
         (self : obj other) (c : call other),
    heap s !! this = Some self ->
    match invoke this c s with
    | (Ret (PAxios n), s') =>
        n = length (net s) /\ exists req, net s' = net s ++ [req]
                                          /\ net s' !! n = Some req
    | (Ret (PResolved _), s') => s' = s
    | (Throw _, s') => s' = s
    end.
Proof.
  intros other J s this self c Hthis.
  assert (forall u m arg,
            match _send_request this u m arg s with
            | (Ret (PAxios n), s') =>
                n = length (net s) /\ exists req, net s' = net s ++ [req]
                                                  /\ net s' !! n = Some req
            | (Ret (PResolved _), s') => s' = s
            | (Throw _, s') => s' = s
            end) as Hsend.
  { intros u m arg.
    destruct (send_request_any this u m arg s self Hthis) as (req & ->).
    split; [reflexivity|]. exists req. split; [reflexivity|].
    simpl. now apply list_lookup_middle. }
  destruct c as [l|args|l|arg|arg| |name|l]; simpl;
    try apply Hsend; try reflexivity.
  - destruct (heap s !! l) as [o|] eqn:Hl.
    + destruct (can_delete s l "engine" o) eqn:Hdel.
      * rewrite (complete_run _ _ _ _ _ Hthis Hl Hdel).
        split; [reflexivity|]. eexists. split; [reflexivity|].
        simpl. now apply list_lookup_middle.
      * now rewrite (complete_fixed _ _ _ _ Hl Hdel).
    + now rewrite (complete_dangling _ _ _ Hl).
  - destruct (heap s !! l) as [o|] eqn:Hl.
    + destruct (can_delete s l "engine" o) eqn:Hdel.
      * rewrite (search_run _ _ _ _ _ Hthis Hl Hdel).
        split; [reflexivity|]. eexists. split; [reflexivity|].
        simpl. now apply list_lookup_middle.
      * now rewrite (search_fixed _ _ _ _ Hl Hdel).
    + now rewrite (search_dangling _ _ _ Hl).
  - destruct (heap s !! l) as [o|] eqn:Hl.
    + destruct (array_includes availableEngineNames (engine_of this l s o)) eqn:E.
      * rewrite (embeddings_run_accept _ _ _ _ _ Hthis Hl E).
        split; [reflexivity|]. eexists. split; [reflexivity|].
        simpl. now apply list_lookup_middle.
      * now rewrite (embeddings_run_reject _ _ _ _ Hl E).
    + now rewrite (embeddings_dangling _ _ _ Hl).
Qed.


(** X11.  On a client that is there, a call ends in one of three ways: it
    returns the promise of exactly one request, which it has added at the
    end of the log; or it returns a resolved promise and has changed
    nothing; or it throws and has changed nothing, so that a call that
    fails has sent nothing and has left the bag as it was. *)
Theorem X11_call_outcomes :
  forall other (J : JsOther other) (s : state other) (this : loc)
         (self : obj other) (c : call other),
    heap s !! this = Some self ->
    match invoke this c s with
    | (Ret (PAxios n), s') =>
        n = length (net s) /\ exists req, net s' = net s ++ [req]
                                          /\ net s' !! n = Some req
    | (Ret (PResolved _), s') => s' = s
    | (Throw _, s') => s' = s
    end.
Proof. exact invoke_outcome. Qed.

Lemma X11_call_outcomes_witness :
  match invoke 0 (CallEmbeddings 1) (sample_state [("engine", VString "ada")]) with
  | (Ret (PAxios n), s') =>
      n = length (net (sample_state [("engine", VString "ada")]))
      /\ exists req,
           net s' = net (sample_state [("engine", VString "ada")]) ++ [req]
           /\ net s' !! n = Some req
  | (Ret (PResolved _), s') => s' = sample_state [("engine", VString "ada")]
  | (Throw _, s') => s' = sample_state [("engine", VString "ada")]
  end.
Proof.
  apply (X11_call_outcomes prim _ (sample_state [("engine", VString "ada")]) 0
           sample_client (CallEmbeddings 1)).
  reflexivity.
Defined.

(** X12.  [embeddings] rejects a bag that has no engine, or whose engine is
    not a string: it throws the error of the validator and sends
    nothing. *)
Theorem X12_embeddings_needs_string_engine :
  forall other (J : JsOther other) (s : state other) (this opts : loc)
         (self o : obj other),
    heap s !! this = Some self ->
    heap s !! opts = Some o ->
    (forall e : string, Obj.lookup "engine" o <> Some (VString e)) ->
    embeddings this opts s = (Throw (Error unknown_engine_message), s).
Proof.
  intros other J s this opts self o _ Hopts Hno.
  apply (embeddings_run_reject this opts s o Hopts).
  destruct (Obj.lookup "engine" o) as [[|e|src|x]|] eqn:E.
  - now rewrite (engine_of_own _ _ _ _ _ E).
  - now destruct (Hno e).
  - now rewrite (engine_of_own _ _ _ _ _ E).
  - now rewrite (engine_of_own _ _ _ _ _ E).
  - now apply engine_of_not_listed.
Qed.

Lemma X12_embeddings_needs_string_engine_witness :
  embeddings 0 1 (sample_state [("input", VString "hi")])
  = (Throw (Error unknown_engine_message),
     sample_state [("input", VString "hi")]).
Proof.
  apply (X12_embeddings_needs_string_engine prim _
           (sample_state [("input", VString "hi")]) 0 1
           sample_client [("input", VString "hi")] eq_refl eq_refl).
  intros e. discriminate.
Defined.

(** X13.  Without a bag, [complete], [search] and [embeddings] throw a
    [TypeError] before anything is sent or changed, while [answers] and
    [classification] go on with the empty default and send a request with
    an empty body. *)
Theorem X13_missing_bag :
  forall other (J : JsOther other) (s : state other) (this opts : loc)
         (self : obj other),
    heap s !! this = Some self ->
    heap s !! opts = None ->
    complete this opts s = (Throw TypeError, s)
    /\ search this opts s = (Throw TypeError, s)
    /\ embeddings this opts s = (Throw TypeError, s)
    /\ (forall arg, arg = None \/ arg = Some opts ->
          answers this arg s
          = (Ret (PAxios (length (net s))),
             State (heap s)
               (net s ++ [Request "https://api.openai.com/v1/answers"
                            (bearer_headers (Obj.get "_api_key" self))
                            BodyEmptyString "post"])
               (shapes s))
          /\ classification this arg s
             = (Ret (PAxios (length (net s))),
                State (heap s)
                  (net s ++ [Request "https://api.openai.com/v1/classifications"
                               (bearer_headers (Obj.get "_api_key" self))
                               BodyEmptyString "post"])
                  (shapes s))).
Proof.
  intros other J s this opts self Hthis Hopts.
  split; [now apply complete_dangling|].
  split; [now apply search_dangling|].
  split; [now apply embeddings_dangling|].
  intros arg Harg.
  unfold answers, classification, _send_request, bind, bag_or_default.
  destruct Harg as [-> | ->]; [|rewrite Hopts];
    rewrite (deref_some _ _ _ Hthis); split; reflexivity.
Qed.

Lemma X13_missing_bag_witness :
  complete 0 7 (sample_state []) = (Throw TypeError, sample_state []).
Proof.
  apply (proj1 (X13_missing_bag prim _ (sample_state []) 0 7 sample_client
                  eq_refl eq_refl)).
Defined.

(** X14.  [answers] and [classification] pass the whole bag on: a POST to
    their fixed URL with the transform of the bag as body, the heap left as
    it is; unlike [complete] and [search] they keep an [engine] of the bag
    in the body. *)
Theorem X14_answers_pass_bag :
  forall other (J : JsOther other) (s : state other) (this opts : loc)
         (self o : obj other),
    heap s !! this = Some self ->
    heap s !! opts = Some o ->
    answers this (Some opts) s
    = (Ret (PAxios (length (net s))),
       State (heap s)
         (net s ++ [Request "https://api.openai.com/v1/answers"
                      (bearer_headers (Obj.get "_api_key" self))
                      (body_of (transform o)) "post"])
         (shapes s))
    /\ classification this (Some opts) s
       = (Ret (PAxios (length (net s))),
          State (heap s)
            (net s ++ [Request "https://api.openai.com/v1/classifications"
                         (bearer_headers (Obj.get "_api_key" self))
                         (body_of (transform o)) "post"])
            (shapes s))
    /\ (forall v, Obj.lookup "engine" o = Some v ->
          body_of (transform o) = BodyObject (transform o)
          /\ Obj.lookup "engine" (transform o) = Some v).
Proof.
  intros other J s this opts self o Hthis Hopts.
  split; [|split].
  - unfold answers. now rewrite (send_request_some _ _ _ _ _ _ _ Hthis Hopts).
  - unfold classification.
    now rewrite (send_request_some _ _ _ _ _ _ _ Hthis Hopts).
  - intros v Hv. pose proof (transform_engine o v Hv) as Hd.
    split; [|assumption].
    destruct (transform o); [discriminate | reflexivity].
Qed.

Lemma X14_answers_pass_bag_witness :
  body_of (transform [("engine", @VString prim "curie")])
  = BodyObject (transform [("engine", VString "curie")])
  /\ Obj.lookup "engine" (transform [("engine", @VString prim "curie")])
     = Some (VString "curie").
Proof.
  apply (proj2 (proj2 (X14_answers_pass_bag prim _
                         (sample_state [("engine", VString "curie")]) 0 1
                         sample_client [("engine", VString "curie")]
                         eq_refl eq_refl)) (VString "curie")).
  reflexivity.
Defined.

(** X15.  [engines] and [engine] read nothing but the key of the client:
    whatever the heap holds they send a GET with an empty body, to the list
    of engines or to the engine named, and leave the heap as it is. *)
Theorem X15_engines_get :
  forall other (J : JsOther other) (s : state other) (this : loc)
         (self : obj other) (name : string),
    heap s !! this = Some self ->
    engines this s
    = (Ret (PAxios (length (net s))),
       State (heap s)
         (net s ++ [Request "https://api.openai.com/v1/engines"
                      (bearer_headers (Obj.get "_api_key" self))
                      BodyEmptyString "get"])
         (shapes s))
    /\ engine this (VString name) s
       = (Ret (PAxios (length (net s))),
          State (heap s)
            (net s ++ [Request ("https://api.openai.com/v1/engines/" +:+ name)
                         (bearer_headers (Obj.get "_api_key" self))
                         BodyEmptyString "get"])
            (shapes s)).
Proof.
  intros other J s this self name Hthis.
  unfold engines, engine.
  now rewrite !(send_request_none _ _ _ _ _ Hthis).
Qed.

Lemma X15_engines_get_witness :
  engines 0 (sample_state [("n", VString "1")])
  = (Ret (PAxios 0),
     State (heap (sample_state [("n", VString "1")]))
       [Request "https://api.openai.com/v1/engines"
          (bearer_headers (Obj.get "_api_key" sample_client))
          BodyEmptyString "get"]
       sample_shapes).
Proof.
  apply (proj1 (X15_engines_get prim _ (sample_state [("n", VString "1")]) 0
                  sample_client "ada" eq_refl)).
Defined.

(** ** The URL builders *)

Section UrlFacts.

Lemma chars_app a b :
  list_ascii_of_string (a +:+ b)
  = list_ascii_of_string a ++ list_ascii_of_string b.
Proof. induction a as [|c a IH]; simpl; [reflexivity | now rewrite IH]. Qed.

Lemma chars_inj a b : list_ascii_of_string a = list_ascii_of_string b -> a = b.
Proof.
  intros E. rewrite <- (string_of_list_ascii_of_string a),
    <- (string_of_list_ascii_of_string b). now rewrite E.
Qed.

Lemma string_app_assoc a b c : (a +:+ b) +:+ c = a +:+ (b +:+ c).
Proof.
  induction a as [|x a IH]; [reflexivity|].
  change (String x ((a +:+ b) +:+ c) = String x (a +:+ (b +:+ c))).
  now f_equal.
Qed.

Lemma string_app_inv_head p a b : p +:+ a = p +:+ b -> a = b.
Proof. induction p as [|x p IH]; simpl; [auto | intros [= E]; auto]. Qed.

Lemma string_app_inv_tail a b c : a +:+ c = b +:+ c -> a = b.
Proof.
  intros E. apply chars_inj. apply (f_equal list_ascii_of_string) in E.
  rewrite !chars_app in E. now apply List.app_inv_tail in E.
Qed.

(** Two strings that end differently are different; the ends are compared
    from the last character backwards. *)
Lemma string_app_ends a b x y :
  a +:+ x = b +:+ y ->
  List.rev (list_ascii_of_string x) ++ List.rev (list_ascii_of_string a)
  = List.rev (list_ascii_of_string y) ++ List.rev (list_ascii_of_string b).
Proof.
  intros E. apply (f_equal list_ascii_of_string) in E.
  rewrite !chars_app in E. apply (f_equal (@List.rev ascii)) in E.
  now rewrite !List.rev_app_distr in E.
Qed.

End UrlFacts.

(** X16.  The URL of an endpoint tells the engine: each of the builders
    that take an engine gives different URLs for different engine strings.
    The URLs for completions, search and embeddings are never the same,
    whatever the engines. *)
Theorem X16_urls_distinct :
  forall other (J : JsOther other) (e1 e2 : string),
    (config.completionURL (VString e1) = config.completionURL (VString e2)
     -> e1 = e2)
    /\ (config.searchURL (VString e1) = config.searchURL (VString e2) -> e1 = e2)
    /\ (config.embeddingsUrl (VString e1) = config.embeddingsUrl (VString e2)
        -> e1 = e2)
    /\ (config.engineUrl (VString e1) = config.engineUrl (VString e2) -> e1 = e2)
    /\ config.completionURL (VString e1) <> config.searchURL (VString e2)
    /\ config.completionURL (VString e1) <> config.embeddingsUrl (VString e2)
    /\ config.searchURL (VString e1) <> config.embeddingsUrl (VString e2).
Proof.
  intros other J e1 e2.
  assert (forall e x, "https://api.openai.com/v1/engines/" +:+ (e +:+ x)
                      = config.OPEN_AI_URL +:+ "/engines/" +:+ e +:+ x) as Hshape
    by reflexivity.
  unfold config.completionURL, config.searchURL, config.embeddingsUrl,
    config.engineUrl, toString.
  rewrite <- !Hshape.
  repeat split.
  - intros E. apply string_app_inv_head in E. now apply string_app_inv_tail in E.
  - intros E. apply string_app_inv_head in E. now apply string_app_inv_tail in E.
  - intros E. apply string_app_inv_head in E. now apply string_app_inv_tail in E.
  - intros E. now do 2 apply string_app_inv_head in E.
  - intros E. apply string_app_inv_head, string_app_ends in E. discriminate.
  - intros E. apply string_app_inv_head, string_app_ends in E. discriminate.
  - intros E. apply string_app_inv_head, string_app_ends in E. discriminate.
Qed.

Lemma X16_urls_distinct_witness : "ada" = "ada".
Proof.
  apply (proj1 (X16_urls_distinct prim _ "ada" "ada")).
  reflexivity.
Defined.

(** X17.  The engine is put into the path as it is, so that it can bring
    further path segments with it: [engineUrl] gives the URL of the
    completions, search or embeddings endpoint of an engine exactly when it
    is given that engine followed by ["/completions"], ["/search"] or
    ["/embeddings"]. *)
Theorem X17_engine_not_escaped :
  forall other (J : JsOther other) (a e : string),
    (config.engineUrl (VString a) = config.completionURL (VString e)
     <-> a = e +:+ "/completions")
    /\ (config.engineUrl (VString a) = config.searchURL (VString e)
        <-> a = e +:+ "/search")
    /\ (config.engineUrl (VString a) = config.embeddingsUrl (VString e)
        <-> a = e +:+ "/embeddings").
Proof.
  intros other J a e.
  unfold config.completionURL, config.searchURL, config.embeddingsUrl,
    config.engineUrl, toString.
  repeat split; intros E; subst;
    try reflexivity; now do 2 apply string_app_inv_head in E.
Qed.

Lemma X17_engine_not_escaped_witness :
  @config.engineUrl prim _ (VString "ada/search")
  = config.searchURL (VString "ada").
Proof.
  apply (proj1 (proj2 (X17_engine_not_escaped prim _ "ada/search" "ada"))).
  reflexivity.
Defined.

(** ** The declared options *)

Section DeclaredOptions.
Context {other : Type} `{JsOther other}.

(** On a list of names that are rewritten to distinct keys, none of them
    [__proto__], a bag with keys of the list has every key other than
    [engine] sent by [complete] and [search]. *)
Lemma declared_sent (fields : list string) (o : obj other) k :
  (forall a b, a ∈ fields -> b ∈ fields ->
               camelToUnderscore a = camelToUnderscore b -> a = b) ->
  (forall a, a ∈ fields -> camelToUnderscore a <> "__proto__") ->
  Forall (fun a => a ∈ fields) (Obj.keys o) ->
  k ∈ Obj.keys o ->
  k <> "engine" ->
  body_of (transform (Obj.delete "engine" o))
  = BodyObject (transform (Obj.delete "engine" o))
  /\ Obj.lookup (camelToUnderscore k) (transform (Obj.delete "engine" o))
     = Some (Obj.get k o).
Proof.
  intros Hinj Hproto Hkeys Hk Hne.
  rewrite Forall_forall in Hkeys.
  assert (forall a, a ∈ Obj.keys (Obj.delete "engine" o) -> a ∈ Obj.keys o) as Hsub.
  { intros a Ha. apply elem_of_keys in Ha as [w Hw]. apply elem_of_keys.
    destruct (decide (a = "engine")) as [->|Hae].
    - rewrite lookup_delete_eq in Hw. discriminate.
    - rewrite lookup_delete_ne in Hw by assumption. eauto. }
  assert (k ∈ Obj.keys (Obj.delete "engine" o)) as Hk'.
  { apply elem_of_keys. rewrite lookup_delete_ne by assumption.
    now apply elem_of_keys. }
  assert (Obj.lookup (camelToUnderscore k) (transform (Obj.delete "engine" o))
          = Some (Obj.get k o)) as Hd.
  { rewrite <- (get_delete_ne "engine" k o Hne).
    apply transform_lookup; [assumption | auto |].
    intros k' Hk'' E. apply Hinj; auto. }
  split; [|assumption].
  destruct (transform (Obj.delete "engine" o)); [discriminate | reflexivity].
Qed.

Lemma CompletionOpts_distinct a b :
  a ∈ CompletionOpts_fields -> b ∈ CompletionOpts_fields ->
  camelToUnderscore a = camelToUnderscore b -> a = b.
Proof.
  assert (Forall (fun a => Forall (fun b =>
            camelToUnderscore a = camelToUnderscore b -> a = b)
              CompletionOpts_fields) CompletionOpts_fields) as Hall
    by (apply (bool_decide_unpack _); vm_compute; exact I).
  rewrite Forall_forall in Hall. intros Ha Hb.
  specialize (Hall a Ha). rewrite Forall_forall in Hall. now apply Hall.
Qed.

Lemma SearchOpts_distinct a b :
  a ∈ SearchOpts_fields -> b ∈ SearchOpts_fields ->
  camelToUnderscore a = camelToUnderscore b -> a = b.
Proof.
  assert (Forall (fun a => Forall (fun b =>
            camelToUnderscore a = camelToUnderscore b -> a = b)
              SearchOpts_fields) SearchOpts_fields) as Hall
    by (apply (bool_decide_unpack _); vm_compute; exact I).
  rewrite Forall_forall in Hall. intros Ha Hb.
  specialize (Hall a Ha). rewrite Forall_forall in Hall. now apply Hall.
Qed.

Lemma declared_not_proto a :
  a ∈ CompletionOpts_fields ++ SearchOpts_fields ->
  camelToUnderscore a <> "__proto__".
Proof.
  assert (Forall (fun a => camelToUnderscore a <> "__proto__")
            (CompletionOpts_fields ++ SearchOpts_fields)) as Hall
    by (apply (bool_decide_unpack _); vm_compute; exact I).
  rewrite Forall_forall in Hall. apply Hall.
Qed.

End DeclaredOptions.

(** X18.  The option names declared for [complete] and for [search] are
    rewritten to the snake-case names, all distinct.  So a bag that has
    only declared options, and whose [engine] can be deleted, is sent
    whole: every option of it other than the engine is in the body of the
    request under its snake-case name, with its value. *)
Theorem X18_declared_options_sent :
  forall other (J : JsOther other) (s : state other) (this opts : loc)
         (self o : obj other) (k : string),
    heap s !! this = Some self ->
    heap s !! opts = Some o ->
    k ∈ Obj.keys o ->
    k <> "engine" ->
    map camelToUnderscore CompletionOpts_fields
    = [ "engine"; "prompt"; "max_tokens"; "temperature"; "top_p"; "n";
        "stream"; "logprobs"; "echo"; "stop"; "presence_penalty";
        "frequency_penalty"; "best_of"; "user"; "logit_bias" ]
    /\ map camelToUnderscore SearchOpts_fields
       = [ "engine"; "documents"; "file"; "query"; "max_rerank";
           "return_metadata" ]
    /\ (can_delete s opts "engine" o = true ->
        Forall (fun a => a ∈ CompletionOpts_fields) (Obj.keys o) ->
        exists d,
          last_body (complete this opts s) = Some (BodyObject d)
          /\ Obj.lookup (camelToUnderscore k) d = Some (Obj.get k o))
    /\ (can_delete s opts "engine" o = true ->
        Forall (fun a => a ∈ SearchOpts_fields) (Obj.keys o) ->
        exists d,
          last_body (search this opts s) = Some (BodyObject d)
          /\ Obj.lookup (camelToUnderscore k) d = Some (Obj.get k o)).
Proof.
  intros other J s this opts self o k Hthis Hopts Hk Hne.
  do 2 (split; [reflexivity|]).
  unfold last_body.
  split; intros Hdel Hkeys;
    [rewrite (complete_run _ _ _ _ _ Hthis Hopts Hdel)
    |rewrite (search_run _ _ _ _ _ Hthis Hopts Hdel)];
    simpl; rewrite !last_snoc; simpl.
  - destruct (declared_sent CompletionOpts_fields o k) as [Hb Hd];
      auto using CompletionOpts_distinct.
    { intros a Ha. apply declared_not_proto, elem_of_app. now left. }
    rewrite Hb. eauto.
  - destruct (declared_sent SearchOpts_fields o k) as [Hb Hd];
      auto using SearchOpts_distinct.
    { intros a Ha. apply declared_not_proto, elem_of_app. now right. }
    rewrite Hb. eauto.
Qed.

Lemma X18_declared_options_sent_witness :
  exists d,
    last_body (complete 0 1
                 (sample_state [("engine", VString "ada");
                                ("presencePenalty", VString "0")]))
    = Some (BodyObject d)
    /\ Obj.lookup (camelToUnderscore "presencePenalty") d = Some (VString "0").
Proof.
  apply (proj1 (proj2 (proj2
    (X18_declared_options_sent prim _
       (sample_state [("engine", VString "ada"); ("presencePenalty", VString "0")])
       0 1 sample_client
       [("engine", VString "ada"); ("presencePenalty", VString "0")]
       "presencePenalty" eq_refl eq_refl
       ltac:(apply list_elem_of_In; simpl; auto)
       ltac:(discriminate)))) eq_refl).
  repeat constructor; apply list_elem_of_In; simpl; auto 20.
Defined.


(** X19.  Camel-case keys that have no underscore never collide: two such
    keys that are rewritten to the same key are the same key. *)
Theorem X19_camel_keys_do_not_collide :
  forall k1 k2 : string,
    Spec.camel_key k1 = true -> no_underscore k1 = true ->
    Spec.camel_key k2 = true -> no_underscore k2 = true ->
    camelToUnderscore k1 = camelToUnderscore k2 -> k1 = k2.
Proof.
  intros k1 k2 Hc1 Hu1 Hc2 Hu2. rewrite !camelToUnderscore_rewrite.
  now apply rewrite_key_inj.
Qed.

Lemma X19_camel_keys_do_not_collide_witness : "maxTokens" = "maxTokens".
Proof.
  apply (X19_camel_keys_do_not_collide "maxTokens" "maxTokens");
    reflexivity.
Defined.

(** ** The log over a run, and a bag shared with [embeddings] *)

Section LogFacts.
Context {other : Type} `{JsOther other}.

Lemma run_on_net_length (cs : list (loc * call other)) (s : state other) :
  Forall (fun tc => is_Some (heap s !! fst tc)) cs ->
  exists new,
    net (run_on cs s) = net s ++ new /\ length new <= length cs.
Proof.
  revert s. induction cs as [|[this c] r IH]; intros s Hcs; simpl.
  - exists []. split; [now rewrite app_nil_r | reflexivity].
  - apply Forall_cons in Hcs as [[self Hthis] Hcs]. simpl in Hthis.
    assert (Forall (fun tc => is_Some (heap (snd (invoke this c s)) !! fst tc)) r)
      as Hcs'.
    { eapply Forall_impl; [exact Hcs|]. intros [l c'] [o Hl]. simpl in *.
      destruct (invoke_frame this c s l o Hl) as (o' & -> & _). eauto. }
    destruct (IH _ Hcs') as (new' & Hnet' & Hlen').
    pose proof (invoke_outcome other _ s this self c Hthis) as Hout.
    destruct (invoke this c s) as [[[n|a]|e] s1]; simpl in *.
    + destruct Hout as (_ & req & Hnet & _).
      exists (req :: new'). split; [|simpl; lia].
      rewrite Hnet', Hnet, <- app_assoc. reflexivity.
    + subst s1. exists new'. split; [assumption | lia].
    + subst s1. exists new'. split; [assumption | lia].
Qed.

End LogFacts.

(** X20.  The log only grows, and by at most one request for each call:
    after any sequence of calls on clients that are there, the requests
    sent before are still at the start of the log, in their order, and
    there are at most as many new ones as there were calls. *)
Theorem X20_at_most_one_request_per_call :
  forall other (J : JsOther other) (cs : list (loc * call other))
         (s : state other),
    Forall (fun tc => is_Some (heap s !! fst tc)) cs ->
    exists new,
      net (run_on cs s) = net s ++ new /\ length new <= length cs.
Proof. intros other J cs s. apply run_on_net_length. Qed.

Lemma X20_at_most_one_request_per_call_witness :
  exists new,
    net (run_on [(0, CallEncode []); (0, CallEngines)] (sample_state []))
    = net (sample_state []) ++ new
    /\ length new <= 2.
Proof.
  apply (X20_at_most_one_request_per_call prim _
           [(0, CallEncode []); (0, CallEngines)] (sample_state [])).
  repeat constructor; simpl; eauto.
Defined.

(** X21.  A bag shared with [embeddings], whose [engine] can be deleted.
    After [complete] or [search] has been called on the bag, [embeddings]
    on the same bag always throws, for the engine is gone; after
    [embeddings] has gone through, [complete] and [search] on the same bag
    go to the engine of the bag. *)
Theorem X21_bag_shared_with_embeddings :
  forall other (J : JsOther other) (s : state other) (this opts : loc)
         (self o : obj other) (first : bool),
    heap s !! this = Some self ->
    heap s !! opts = Some o ->
    can_delete s opts "engine" o = true ->
    (let s1 := snd ((if first then complete else search) this opts s) in
     embeddings this opts s1 = (Throw (Error unknown_engine_message), s1))
    /\ (forall e : string,
          Obj.lookup "engine" o = Some (VString e) ->
          In e availableEngineNames ->
          let s1 := snd (embeddings this opts s) in
          last_url (complete this opts s1)
          = Some ("https://api.openai.com/v1/engines/" +:+ e +:+ "/completions")
          /\ last_url (search this opts s1)
             = Some ("https://api.openai.com/v1/engines/" +:+ e +:+ "/search")).
Proof.
  intros other J s this opts self o first Hthis Hopts Hdel. split.
  - intros s1.
    pose proof (bag_after_delete _ _ _ Hopts) as Hbag.
    assert (heap s1 = <[opts := Obj.delete "engine" o]> (heap s)) as Hheap.
    { unfold s1. destruct first.
      - now rewrite (complete_run _ _ _ _ _ Hthis Hopts Hdel).
      - now rewrite (search_run _ _ _ _ _ Hthis Hopts Hdel). }
    rewrite <- Hheap in Hbag.
    apply (embeddings_run_reject this opts s1 _ Hbag).
    apply engine_of_not_listed, lookup_delete_eq.
  - intros e He Hin s1.
    pose proof (engine_of_own this opts s o _ He) as Hget.
    assert (array_includes availableEngineNames (engine_of this opts s o) = true)
      as Hyes by (rewrite Hget; now apply array_includes_In).
    assert (s1 = State (heap s) (net s1) (shapes s)) as Hs1
      by (unfold s1; now rewrite (embeddings_run_accept _ _ _ _ _ Hthis Hopts Hyes)).
    assert (can_delete s1 opts "engine" o = true) as Hdel1
      by (rewrite Hs1; exact Hdel).
    assert (engine_of this opts s1 o = VString e) as Hget1
      by (apply engine_of_own, He).
    assert (heap s1 = heap s) as Hheap by now rewrite Hs1.
    rewrite <- Hheap in Hthis, Hopts. unfold last_url.
    rewrite (complete_run _ _ _ _ _ Hthis Hopts Hdel1),
      (search_run _ _ _ _ _ Hthis Hopts Hdel1).
    simpl. rewrite !last_snoc. simpl. rewrite Hget1.
    assert (e <> "") as Hne by (intros ->; simpl in Hin; intuition discriminate).
    destruct e as [|c e]; [congruence|]. split; reflexivity.
Qed.

Lemma X21_bag_shared_with_embeddings_witness :
  embeddings 0 1
    (snd (complete 0 1
            (sample_state [("engine", VString "text-similarity-ada-001")])))
  = (Throw (Error unknown_engine_message),
     snd (complete 0 1
            (sample_state [("engine", VString "text-similarity-ada-001")]))).
Proof.
  apply (proj1 (X21_bag_shared_with_embeddings prim _
                  (sample_state [("engine", VString "text-similarity-ada-001")])
                  0 1 sample_client
                  [("engine", VString "text-similarity-ada-001")] true
                  eq_refl eq_refl eq_refl)).
Defined.
